(** * Secador de Filamento Inteligente: the serial dashboard (Ui.py)

    A shallow embedding of [SecadoraInteligente/Ui.py]: the regular
    expression of [MainWindow.regex_pattern] with a backtracking matcher,
    the widgets of [MainWindow] as a record updated by a small state monad,
    and [SerialWorker.run] as a function of what the serial port answers.

    Text is [list ascii]: a character is a code point below 256, and the
    classes [\s] and [\d] are the ones Python's [re] uses on [str] there. *)

From Stdlib Require Import Ascii String List Bool Arith ZArith Lia.
Import ListNotations.

Set Implicit Arguments.

(** ** Text *)

Definition text := list ascii.

Definition str (s : string) : text := list_ascii_of_string s.

Definition text_eqb (a b : text) : bool :=
  if list_eq_dec ascii_dec a b then true else false.

(** ** The regular expression engine *)

Module Re.

(** Regular expressions, as far as [regex_pattern] uses them. *)
Inductive regex : Type :=
| Eps
| Chr (c : ascii)
| Class (p : ascii -> bool)
| Seq (r1 r2 : regex)
| Alt (r1 r2 : regex)
| Star (r : regex)
| Group (n : nat) (r : regex).

(** [r+] *)
Definition plus (r : regex) : regex := Seq r (Star r).

(** A literal run of characters. *)
Fixpoint lit (l : text) : regex :=
  match l with
  | [] => Eps
  | c :: l' => Seq (Chr c) (lit l')
  end.

(** The items of a pattern, one after the other. *)
Fixpoint seqs (rs : list regex) : regex :=
  match rs with
  | [] => Eps
  | r :: rs' => Seq r (seqs rs')
  end.

(** The groups of a match object: the latest binding of a number is the
    first one in the list. *)
Definition groups := list (nat * text).

Fixpoint group (g : groups) (n : nat) : option text :=
  match g with
  | [] => None
  | (m, t) :: g' => if Nat.eqb m n then Some t else group g' n
  end.

Definition set_group (n : nat) (t : text) (g : groups) : groups := (n, t) :: g.

(** What [r] consumed when it started at [s] and left [s']. *)
Definition consumed (s s' : text) : text := firstn (length s - length s') s.

(** The loop of a greedy [r*]: [body] is the matcher of [r].  It runs on the
    length of the input, and an iteration has to consume something (in
    [regex_pattern] every iteration consumes one character of a class). *)
Definition star_loop
    (body : text -> groups -> (text -> groups -> option groups) -> option groups)
    (k : text -> groups -> option groups) : nat -> text -> groups -> option groups :=
  fix loop (n : nat) (s : text) (g : groups) {struct n} : option groups :=
    match n with
    | 0 => k s g
    | S n' =>
        match body s g
                (fun s' g' =>
                   if length s' <? length s then loop n' s' g' else None)
        with
        | Some m => Some m
        | None => k s g
        end
    end.

(** Backtracking matcher in continuation-passing style: [k] receives what is
    left of the input and the groups so far.  Quantifiers are greedy,
    alternatives are tried left to right. *)
Fixpoint rmatch (r : regex) (s : text) (g : groups)
         (k : text -> groups -> option groups) {struct r} : option groups :=
  match r with
  | Eps => k s g
  | Chr c =>
      match s with
      | c' :: s' => if Ascii.eqb c c' then k s' g else None
      | [] => None
      end
  | Class p =>
      match s with
      | c' :: s' => if p c' then k s' g else None
      | [] => None
      end
  | Seq r1 r2 => rmatch r1 s g (fun s' g' => rmatch r2 s' g' k)
  | Alt r1 r2 =>
      match rmatch r1 s g k with
      | Some m => Some m
      | None => rmatch r2 s g k
      end
  | Star r' => star_loop (rmatch r') k (length s) s g
  | Group n r' =>
      rmatch r' s g (fun s' g' => k s' (set_group n (consumed s s') g'))
  end.

(** [pattern.match]: a match that starts at the first character. *)
Definition match_here (r : regex) (s : text) : option groups :=
  rmatch r s [] (fun _ g => Some g).

(** [pattern.search]: the leftmost position at which a match starts. *)
Fixpoint search (r : regex) (s : text) : option groups :=
  match match_here r s with
  | Some m => Some m
  | None =>
      match s with
      | [] => None
      | _ :: s' => search r s'
      end
  end.

(** [pattern.fullmatch]: a match that covers the whole input. *)
Definition fullmatch (r : regex) (s : text) : option groups :=
  rmatch r s [] (fun s' g => match s' with [] => Some g | _ => None end).

(** *** Character classes *)

Definition code (c : ascii) : nat := nat_of_ascii c.

(** [\d]: the decimal digits. *)
Definition is_digit (c : ascii) : bool :=
  (48 <=? code c) && (code c <=? 57).

(** [\s]: tab, line feed, vertical tab, form feed, carriage return, the four
    separators 28 to 31, space, next line (133) and no-break space (160). *)
Definition is_space (c : ascii) : bool :=
  let n := code c in
  ((9 <=? n) && (n <=? 13)) || ((28 <=? n) && (n <=? 32))
  || (n =? 133) || (n =? 160).

(** [[\d.]] *)
Definition num_char (c : ascii) : bool := is_digit c || Ascii.eqb c ".".

(** [[-\d.]] *)
Definition signed_num_char (c : ascii) : bool :=
  Ascii.eqb c "-" || is_digit c || Ascii.eqb c ".".

(** [\s*] *)
Definition ws : regex := Star (Class is_space).

End Re.

Import Re.

(** [MainWindow.regex_pattern]:
    [T:\s*([\d.]+)\s*C\s*\|\s*H:\s*([\d.]+)\s*%\s*\|\s*Peso:\s*([-\d.]+)\s*\|\s*Aquecedor:\s*(ON|OFF)] *)
Definition regex_pattern : regex :=
  seqs [ lit (str "T:"); ws; Group 1 (plus (Class num_char)); ws;
         lit (str "C"); ws; lit (str "|"); ws;
         lit (str "H:"); ws; Group 2 (plus (Class num_char)); ws;
         lit (str "%"); ws; lit (str "|"); ws;
         lit (str "Peso:"); ws; Group 3 (plus (Class signed_num_char)); ws;
         lit (str "|"); ws;
         lit (str "Aquecedor:"); ws;
         Group 4 (Alt (lit (str "ON")) (lit (str "OFF"))) ].

(** ** Widgets *)

(** The degree sign of the temperature card, U+00B0. *)
Definition deg : ascii := "176"%char.

(** What [create_card] returns, with the title it puts above the value:
    the style sheet of the frame and the text of the value label. *)
Record card : Type := Card {
  card_title : text;
  card_frame : text;
  card_label : text
}.

Definition frame_style (color_hex : text) : text :=
  str "QFrame { background-color: " ++ color_hex ++ str "; border-radius: 10px; }".

Definition create_card (title default_val color_hex : text) : card :=
  Card title (frame_style color_hex) default_val.

(** A [QPushButton]. *)
Record button : Type := Button {
  btn_text : text;
  btn_enabled : bool;
  btn_checkable : bool;
  btn_checked : bool;
  btn_style : text
}.

Definition new_button (caption : text) : button :=
  Button caption true false false [].

(** A [QComboBox] that cannot be edited: its text is the current item's. *)
Record combo : Type := Combo {
  combo_items : list text;
  combo_index : option nat;
  combo_enabled : bool
}.

Definition combo_text (c : combo) : text :=
  match combo_index c with
  | Some i => nth i (combo_items c) []
  | None => []
  end.

(** ** The worker objects *)

Inductive thread_state : Type := NotStarted | Running | Finished.

Inductive slot : Type := SlotProcessData | SlotHandleError.

(** A [SerialWorker] as the window sees it. *)
Record serial_worker : Type := SerialWorker {
  port_name : text;
  baud_rate : Z;
  is_running : bool;
  thread : thread_state;
  data_received : list slot;
  error_occurred : list slot
}.

Definition new_worker (port : text) : serial_worker :=
  SerialWorker port 115200%Z true NotStarted [] [].

(** The calls a method makes on the widgets and on the worker, in order. *)
Inductive call : Type :=
| CallSetChecked (b : bool)
| CallSetText (t : text)
| CallSetStyle (t : text)
| CallComboEnabled (b : bool)
| CallComboClear
| CallComboAdd (t : text)
| CallRefreshEnabled (b : bool)
| CallLog (t : text)
| CallCardText (title t : text)
| CallCardStyle (title t : text)
| CallNewWorker (w : nat) (port : text)
| CallConnectData (w : nat)
| CallConnectError (w : nat)
| CallStart (w : nat)
| CallClearRunning (w : nat)
| CallWait (w : nat).

(** ** The main window *)

(** [MainWindow], the worker objects it has created ([worker] refers to one
    of them by position) and the calls made so far.  [log_view] is the
    sequence of the texts handed to [QTextEdit.append], oldest first: what
    the widget makes of a text (rich text, paragraphs) and the scroll bar,
    which [log_message] moves to the end, are left out. *)
Record window : Type := Window {
  worker : option nat;
  combo_ports : combo;
  btn_refresh : button;
  btn_connect : button;
  lbl_temp : card;
  lbl_hum : card;
  lbl_weight : card;
  lbl_heater : card;
  log_view : list text;
  workers : list serial_worker;
  calls : list call
}.

(** *** A state monad over the window *)

Definition M (A : Type) : Type := window -> A * window.

Definition ret {A : Type} (a : A) : M A := fun st => (a, st).

Definition bind {A B : Type} (m : M A) (f : A -> M B) : M B :=
  fun st => let (a, st') := m st in f a st'.

Definition gets {A : Type} (f : window -> A) : M A := fun st => (f st, st).

Definition modify (f : window -> window) : M unit := fun st => (tt, f st).

Definition exec {A : Type} (m : M A) (st : window) : window := snd (m st).

Declare Scope monad_scope.
Delimit Scope monad_scope with monad.
Notation "x <- m ;; k" := (bind m (fun x => k))
  (at level 61, m at next level, right associativity) : monad_scope.
Notation "m ;; k" := (bind m (fun _ => k))
  (at level 61, right associativity) : monad_scope.
Open Scope monad_scope.

(** *** Field updates *)

Definition record_call (c : call) (st : window) : window :=
  Window (worker st) (combo_ports st) (btn_refresh st) (btn_connect st)
         (lbl_temp st) (lbl_hum st) (lbl_weight st) (lbl_heater st)
         (log_view st) (workers st) (calls st ++ [c]).

Definition with_worker (w : option nat) (st : window) : window :=
  Window w (combo_ports st) (btn_refresh st) (btn_connect st)
         (lbl_temp st) (lbl_hum st) (lbl_weight st) (lbl_heater st)
         (log_view st) (workers st) (calls st).

Definition with_combo (f : combo -> combo) (st : window) : window :=
  Window (worker st) (f (combo_ports st)) (btn_refresh st) (btn_connect st)
         (lbl_temp st) (lbl_hum st) (lbl_weight st) (lbl_heater st)
         (log_view st) (workers st) (calls st).

Definition with_refresh (f : button -> button) (st : window) : window :=
  Window (worker st) (combo_ports st) (f (btn_refresh st)) (btn_connect st)
         (lbl_temp st) (lbl_hum st) (lbl_weight st) (lbl_heater st)
         (log_view st) (workers st) (calls st).

Definition with_connect (f : button -> button) (st : window) : window :=
  Window (worker st) (combo_ports st) (btn_refresh st) (f (btn_connect st))
         (lbl_temp st) (lbl_hum st) (lbl_weight st) (lbl_heater st)
         (log_view st) (workers st) (calls st).

Definition with_temp (f : card -> card) (st : window) : window :=
  Window (worker st) (combo_ports st) (btn_refresh st) (btn_connect st)
         (f (lbl_temp st)) (lbl_hum st) (lbl_weight st) (lbl_heater st)
         (log_view st) (workers st) (calls st).

Definition with_hum (f : card -> card) (st : window) : window :=
  Window (worker st) (combo_ports st) (btn_refresh st) (btn_connect st)
         (lbl_temp st) (f (lbl_hum st)) (lbl_weight st) (lbl_heater st)
         (log_view st) (workers st) (calls st).

Definition with_weight (f : card -> card) (st : window) : window :=
  Window (worker st) (combo_ports st) (btn_refresh st) (btn_connect st)
         (lbl_temp st) (lbl_hum st) (f (lbl_weight st)) (lbl_heater st)
         (log_view st) (workers st) (calls st).

Definition with_heater (f : card -> card) (st : window) : window :=
  Window (worker st) (combo_ports st) (btn_refresh st) (btn_connect st)
         (lbl_temp st) (lbl_hum st) (lbl_weight st) (f (lbl_heater st))
         (log_view st) (workers st) (calls st).

Definition with_log (f : list text -> list text) (st : window) : window :=
  Window (worker st) (combo_ports st) (btn_refresh st) (btn_connect st)
         (lbl_temp st) (lbl_hum st) (lbl_weight st) (lbl_heater st)
         (f (log_view st)) (workers st) (calls st).

Definition with_workers (f : list serial_worker -> list serial_worker)
           (st : window) : window :=
  Window (worker st) (combo_ports st) (btn_refresh st) (btn_connect st)
         (lbl_temp st) (lbl_hum st) (lbl_weight st) (lbl_heater st)
         (log_view st) (f (workers st)) (calls st).

(** Update of the worker object at position [w]; nothing out of range. *)
Fixpoint update_nth {A : Type} (n : nat) (f : A -> A) (l : list A) : list A :=
  match l, n with
  | [], _ => []
  | x :: l', 0 => f x :: l'
  | x :: l', S n' => x :: update_nth n' f l'
  end.

Definition set_label (t : text) (c : card) : card :=
  Card (card_title c) (card_frame c) t.

Definition set_frame (t : text) (c : card) : card :=
  Card (card_title c) t (card_label c).

(** *** The calls of the methods *)

Definition isChecked : M bool := gets (fun st => btn_checked (btn_connect st)).

Definition setChecked (b : bool) : M unit :=
  modify (fun st =>
    record_call (CallSetChecked b)
      (with_connect (fun x => Button (btn_text x) (btn_enabled x)
                                     (btn_checkable x) b (btn_style x)) st)).

Definition setText (t : text) : M unit :=
  modify (fun st =>
    record_call (CallSetText t)
      (with_connect (fun x => Button t (btn_enabled x) (btn_checkable x)
                                     (btn_checked x) (btn_style x)) st)).

Definition setStyleSheet (t : text) : M unit :=
  modify (fun st =>
    record_call (CallSetStyle t)
      (with_connect (fun x => Button (btn_text x) (btn_enabled x)
                                     (btn_checkable x) (btn_checked x) t) st)).

Definition currentText : M text := gets (fun st => combo_text (combo_ports st)).

Definition combo_setEnabled (b : bool) : M unit :=
  modify (fun st =>
    record_call (CallComboEnabled b)
      (with_combo (fun c => Combo (combo_items c) (combo_index c) b) st)).

Definition combo_clear : M unit :=
  modify (fun st =>
    record_call CallComboClear
      (with_combo (fun c => Combo [] None (combo_enabled c)) st)).

(** The first item added to an empty box becomes the current one. *)
Definition combo_addItem (t : text) : M unit :=
  modify (fun st =>
    record_call (CallComboAdd t)
      (with_combo (fun c =>
         Combo (combo_items c ++ [t])
               (match combo_index c with Some i => Some i | None => Some 0 end)
               (combo_enabled c)) st)).

Definition refresh_setEnabled (b : bool) : M unit :=
  modify (fun st =>
    record_call (CallRefreshEnabled b)
      (with_refresh (fun x => Button (btn_text x) b (btn_checkable x)
                                     (btn_checked x) (btn_style x)) st)).

(** [log_message]: [msg] is handed to [log_view.append]. *)
Definition log_message (msg : text) : M unit :=
  modify (fun st => record_call (CallLog msg) (with_log (fun l => l ++ [msg]) st)).

Definition card_setText (upd : (card -> card) -> window -> window)
           (get : window -> card) (t : text) : M unit :=
  modify (fun st =>
    record_call (CallCardText (card_title (get st)) t) (upd (set_label t) st)).

Definition card_setStyleSheet (upd : (card -> card) -> window -> window)
           (get : window -> card) (t : text) : M unit :=
  modify (fun st =>
    record_call (CallCardStyle (card_title (get st)) t) (upd (set_frame t) st)).

(** [self.worker = SerialWorker(port)]: a new object, and the reference. *)
Definition worker_new (port : text) : M nat :=
  fun st =>
    let w := length (workers st) in
    (w, record_call (CallNewWorker w port)
          (with_worker (Some w)
             (with_workers (fun l => l ++ [new_worker port]) st))).

Definition on_worker (c : call) (w : nat)
           (f : serial_worker -> serial_worker) : M unit :=
  modify (fun st => record_call c (with_workers (update_nth w f) st)).

Definition connect_data (w : nat) (s : slot) : M unit :=
  on_worker (CallConnectData w) w (fun o =>
    SerialWorker (port_name o) (baud_rate o) (is_running o) (thread o)
                 (data_received o ++ [s]) (error_occurred o)).

Definition connect_error (w : nat) (s : slot) : M unit :=
  on_worker (CallConnectError w) w (fun o =>
    SerialWorker (port_name o) (baud_rate o) (is_running o) (thread o)
                 (data_received o) (error_occurred o ++ [s])).

(** [QThread.start]: the thread begins to execute [run]. *)
Definition worker_start (w : nat) : M unit :=
  on_worker (CallStart w) w (fun o =>
    SerialWorker (port_name o) (baud_rate o) (is_running o)
                 (match thread o with NotStarted => Running | t => t end)
                 (data_received o) (error_occurred o)).

(** [QThread.wait]: returns once the thread has finished, at once when it
    was never started. *)
Definition worker_wait (w : nat) : M unit :=
  on_worker (CallWait w) w (fun o =>
    SerialWorker (port_name o) (baud_rate o) (is_running o)
                 (match thread o with Running => Finished | t => t end)
                 (data_received o) (error_occurred o)).

(** [SerialWorker.stop] *)
Definition worker_stop (w : nat) : M unit :=
  on_worker (CallClearRunning w) w (fun o =>
    SerialWorker (port_name o) (baud_rate o) false (thread o)
                 (data_received o) (error_occurred o)) ;;
  worker_wait w.

(** *** The methods of [MainWindow] *)

Definition color_warning : text := str "#F44336".
Definition color_neutral : text := str "#9E9E9E".

(** [MainWindow.refresh_ports], on the ports the system lists. *)
Fixpoint add_ports (ports : list text) : M unit :=
  match ports with
  | [] => ret tt
  | p :: ports' => combo_addItem p ;; add_ports ports'
  end.

Definition refresh_ports (ports : list text) : M unit :=
  combo_clear ;; add_ports ports.

(** [MainWindow.toggle_connection] *)
Definition toggle_connection : M unit :=
  checked <- isChecked ;;
  if checked then
    port <- currentText ;;
    match port with
    | [] =>
        log_message (str "Selecione uma porta serial!") ;;
        setChecked false
    | _ :: _ =>
        w <- worker_new port ;;
        connect_data w SlotProcessData ;;
        connect_error w SlotHandleError ;;
        worker_start w ;;
        setText (str "Desconectar") ;;
        setStyleSheet (str "background-color: #ffcccc; color: red;") ;;
        combo_setEnabled false ;;
        refresh_setEnabled false ;;
        log_message (str "Conectando a " ++ port ++ str "...")
    end
  else
    current <- gets worker ;;
    match current with
    | Some w => worker_stop w ;; modify (with_worker None)
    | None => ret tt
    end ;;
    setText (str "Conectar") ;;
    setStyleSheet [] ;;
    combo_setEnabled true ;;
    refresh_setEnabled true ;;
    log_message (str "Desconectado.").

(** [QAbstractButton.click] on the connect button, whose [clicked] signal
    runs [toggle_connection]: nothing when the button is disabled, the
    checked state flips when the button is checkable.  A click of the
    user does the same. *)
Definition click : M unit :=
  b <- gets btn_connect ;;
  if btn_enabled b then
    (if btn_checkable b
     then modify (with_connect (fun x =>
            Button (btn_text x) (btn_enabled x) (btn_checkable x)
                   (negb (btn_checked x)) (btn_style x)))
     else ret tt) ;;
    toggle_connection
  else ret tt.

(** [MainWindow.process_data].  The last branch is never taken: the four
    groups take part in every match of the pattern. *)
Definition process_data (line : text) : M unit :=
  log_message line ;;
  match search regex_pattern line with
  | Some m =>
      match group m 1, group m 2, group m 3, group m 4 with
      | Some temp, Some hum, Some weight, Some heater =>
          card_setText with_temp lbl_temp (temp ++ str " " ++ deg :: str "C") ;;
          card_setText with_hum lbl_hum (hum ++ str " %") ;;
          card_setText with_weight lbl_weight (weight ++ str " g") ;;
          card_setText with_heater lbl_heater heater ;;
          if text_eqb heater (str "ON")
          then card_setStyleSheet with_heater lbl_heater
                 (str "QFrame { background-color: #F44336; border-radius: 10px; }")
          else card_setStyleSheet with_heater lbl_heater
                 (str "QFrame { background-color: #9E9E9E; border-radius: 10px; }")
      | _, _, _, _ => ret tt
      end
  | None => ret tt
  end.

(** [MainWindow.handle_error] *)
Definition handle_error (error_msg : text) : M unit :=
  log_message (str "ERRO: " ++ error_msg) ;;
  click.

(** [MainWindow.__init__] with [setup_ui], on the ports the system lists. *)
Definition setup_ui : window :=
  Window None (Combo [] None true)
         (new_button (str "Atualizar Portas"))
         (let b := new_button (str "Conectar") in
          Button (btn_text b) (btn_enabled b) true (btn_checked b) (btn_style b))
         (create_card (str "Temperatura") (str "--- " ++ deg :: str "C") (str "#FF5722"))
         (create_card (str "Umidade") (str "--- %") (str "#2196F3"))
         (create_card (str "Peso") (str "--- g") (str "#4CAF50"))
         (create_card (str "Aquecedor") (str "OFF") (str "#9E9E9E"))
         [] [] [].

Definition init (ports : list text) : window :=
  exec (refresh_ports ports) setup_ui.

(** The line events of a session, oldest first. *)
Fixpoint process_lines (lines : list text) (st : window) : window :=
  match lines with
  | [] => st
  | l :: lines' => process_lines lines' (exec (process_data l) st)
  end.

(** What the dashboard shows: the four value labels and the colour of the
    heater card. *)
Definition display (st : window) : text * text * text * text * text :=
  (card_label (lbl_temp st), card_label (lbl_hum st),
   card_label (lbl_weight st), card_label (lbl_heater st),
   card_frame (lbl_heater st)).

(** ** The serial worker *)

Module Worker.

Inductive signal : Type :=
| DataReceived (line : text)
| ErrorOccurred (msg : text).

(** What [serial.Serial(...)] does: it returns the port or raises. *)
Inductive opening : Type :=
| Opened
| OpenRaises (e : text).

(** What one turn of the loop meets.  An exception leaves the port open or
    not, as the driver decides. *)
Inductive tick : Type :=
| StopRequested
| InWaitingRaises (e : text) (still_open : bool)
| NothingWaiting
| ReadlineRaises (e : text) (still_open : bool)
| Line (decoded : text).

(** How the body of [try] ends: the loop is left, an exception is raised,
    or the loop is still turning when the ticks are used up. *)
Inductive body_end : Type :=
| LoopLeft
| Raised (e : text) (still_open : bool)
| Turning.

(** How [run] ends. *)
Inductive ending : Type := Stopped | Failed | Looping.

(** [self.serial_port] is [None] or a port that is open or not. *)
Record outcome : Type := Outcome {
  emitted : list signal;
  printed : list text;
  serial_port : option bool;
  how : ending
}.

Fixpoint lstrip (s : text) : text :=
  match s with
  | c :: s' => if is_space c then lstrip s' else s
  | [] => []
  end.

Definition rstrip (s : text) : text := rev (lstrip (rev s)).

(** [str.strip] *)
Definition strip (s : text) : text := rstrip (lstrip s).

(** The [while self.is_running] loop, with the signals emitted so far. *)
Fixpoint loop (ticks : list tick) (out : list signal) : list signal * body_end :=
  match ticks with
  | [] => (out, Turning)
  | StopRequested :: _ => (out, LoopLeft)
  | InWaitingRaises e o :: _ => (out, Raised e o)
  | NothingWaiting :: ticks' => loop ticks' out
  | ReadlineRaises e o :: _ => (out, Raised e o)
  | Line decoded :: ticks' =>
      let line := strip decoded in
      match line with
      | [] => loop ticks' out
      | _ :: _ => loop ticks' (out ++ [DataReceived line])
      end
  end.

(** The [finally] clause: an open port is closed. *)
Definition finally (port : option bool) : option bool :=
  match port with
  | Some true => Some false
  | p => p
  end.

(** [SerialWorker.run] *)
Definition run (port : text) (o : opening) (ticks : list tick) : outcome :=
  match o with
  | OpenRaises e => Outcome [ErrorOccurred e] [] (finally None) Failed
  | Opened =>
      let hello := [str "Conectado a " ++ port] in
      match loop ticks [] with
      | (out, LoopLeft) => Outcome out hello (finally (Some true)) Stopped
      | (out, Raised e still_open) =>
          Outcome (out ++ [ErrorOccurred e]) hello (finally (Some still_open)) Failed
      | (out, Turning) => Outcome out hello (Some true) Looping
      end
  end.

Definition is_error (s : signal) : bool :=
  match s with
  | ErrorOccurred _ => true
  | DataReceived _ => false
  end.

Definition errors (r : outcome) : nat := length (filter is_error (emitted r)).

End Worker.

(** ** What the pattern describes *)

(** [matches r s g g']: [r] describes [s], and turns the groups [g] into
    [g']. *)
Inductive matches : regex -> text -> groups -> groups -> Prop :=
| MEps g : matches Eps [] g g
| MChr c g : matches (Chr c) [c] g g
| MClass (p : ascii -> bool) c g : p c = true -> matches (Class p) [c] g g
| MSeq r1 r2 s1 s2 g g1 g2 :
    matches r1 s1 g g1 -> matches r2 s2 g1 g2 ->
    matches (Seq r1 r2) (s1 ++ s2) g g2
| MAltL r1 r2 s g g' : matches r1 s g g' -> matches (Alt r1 r2) s g g'
| MAltR r1 r2 s g g' : matches r2 s g g' -> matches (Alt r1 r2) s g g'
| MStarNil r g : matches (Star r) [] g g
| MStarCons r s1 s2 g g1 g2 :
    matches r s1 g g1 -> matches (Star r) s2 g1 g2 ->
    matches (Star r) (s1 ++ s2) g g2
| MGroup n r s g g' :
    matches r s g g' -> matches (Group n r) s g (set_group n s g').

(** The pattern occurs in the line: some stretch of the line is described
    by it. *)
Definition occurs (r : regex) (line : text) : Prop :=
  exists pre mid post m, line = pre ++ mid ++ post /\ matches r mid [] m.

(** The line of the device, as its [printf] writes it:
    [T: <t> C | H: <h> % | Peso: <w> | Aquecedor: <a>]. *)
Definition wire_line (t h w a : text) : text :=
  str "T: " ++ t ++ str " C | H: " ++ h ++ str " % | Peso: " ++ w
  ++ str " | Aquecedor: " ++ a.

(** The groups of a match with the four tokens. *)
Definition four_groups (t h w a : text) : groups :=
  [(4, a); (3, w); (2, h); (1, t)].

(** A token of [[\d.]+] and one of [[-\d.]+]. *)
Definition num_token (t : text) : Prop := t <> [] /\ Forall (fun c => num_char c = true) t.

Definition signed_token (t : text) : Prop :=
  t <> [] /\ Forall (fun c => signed_num_char c = true) t.

Definition heater_token (a : text) : Prop := a = str "ON" \/ a = str "OFF".

(** A decimal numeral, read generously: an optional minus sign, then digits
    with at most one dot among them, and at least one digit. *)
Definition is_decimal (t : text) : bool :=
  let body := match t with
              | c :: t' => if Ascii.eqb c "-" then t' else t
              | [] => []
              end in
  forallb num_char body
  && (1 <=? length (filter is_digit body))
  && (length (filter (Ascii.eqb ".") body) <=? 1).

(** The line is exactly of the shape of the wire format. *)
Definition wire_shaped (line : text) : Prop :=
  exists t h w a,
    is_decimal t = true /\ is_decimal h = true /\ is_decimal w = true /\
    heater_token a /\ line = wire_line t h w a.

(** The most recent line of [lines] in which the pattern is found. *)
Fixpoint last_match (lines : list text) : option text :=
  match lines with
  | [] => None
  | l :: lines' =>
      match last_match lines' with
      | Some l' => Some l'
      | None =>
          match search regex_pattern l with
          | Some _ => Some l
          | None => None
          end
      end
  end.

(** ** Notions for the proofs *)

(** *** Deterministic steps of the matcher *)

(** The input does not begin with a character of the class. *)
Definition stops (p : ascii -> bool) (s : text) : Prop :=
  match s with
  | [] => True
  | c :: _ => p c = false
  end.

(** The continuation fails on every input that begins in the class. *)
Definition fails_on (p : ascii -> bool)
           (k : text -> groups -> option groups) : Prop :=
  forall c s g, p c = true -> k (c :: s) g = None.

(** *** Soundness and completeness of the matcher *)

(** What a successful run of the matcher of [r] did. *)
Definition sound_at (r : regex) : Prop :=
  forall s g k m,
    rmatch r s g k = Some m ->
    exists s1 s2 g', s = s1 ++ s2 /\ matches r s1 g g' /\ k s2 g' = Some m.

(** Success of the continuation whatever the groups. *)
Definition accepts (k : text -> groups -> option groups) (s : text) : Prop :=
  forall g, k s g <> None.

Definition complete_at (r : regex) : Prop :=
  forall s1 g0 g0', matches r s1 g0 g0' ->
  forall s2 g k, accepts k s2 -> rmatch r (s1 ++ s2) g k <> None.

(** *** The display after a match *)

(** What the dashboard shows after a match with these four tokens. *)
Definition shown (t h w a : text) : text * text * text * text * text :=
  (t ++ str " " ++ deg :: str "C", h ++ str " %", w ++ str " g", a,
   frame_style (if text_eqb a (str "ON") then color_warning else color_neutral)).

(** The line of the comment in [process_data]. *)
Definition example_line : text :=
  str "T: 85.0 C | H: 20.0 % | Peso: 150 | Aquecedor: ON".

(** The same line between other text. *)
Definition padded_line : text :=
  str "xx T: 85.0 C | H: 20.0 % | Peso: 150 | Aquecedor: ON yy".

(** *** The states the window goes through *)

(** [QComboBox]: the user picks the item at [i]. *)
Definition select_port (i : nat) : M unit :=
  modify (with_combo (fun c =>
    if i <? length (combo_items c)
    then Combo (combo_items c) (Some i) (combo_enabled c)
    else c)).

(** The thread of worker [w] leaves [run]. *)
Definition thread_finishes (w : nat) : M unit :=
  modify (with_workers (update_nth w (fun o =>
    SerialWorker (port_name o) (baud_rate o) (is_running o)
                 (match thread o with Running => Finished | t => t end)
                 (data_received o) (error_occurred o)))).

(** The states of the window: it is built, the user clicks the connect
    button, refreshes or picks a port while these are enabled, the signals
    of a worker arrive, and the thread of a worker ends. *)
Inductive reachable : window -> Prop :=
| reach_init ports : reachable (init ports)
| reach_click st : reachable st -> reachable (exec click st)
| reach_refresh st ports :
    reachable st -> btn_enabled (btn_refresh st) = true ->
    reachable (exec (refresh_ports ports) st)
| reach_select st i :
    reachable st -> combo_enabled (combo_ports st) = true ->
    reachable (exec (select_port i) st)
| reach_line st line : reachable st -> reachable (exec (process_data line) st)
| reach_error st msg : reachable st -> reachable (exec (handle_error msg) st)
| reach_finish st w : reachable st -> reachable (exec (thread_finishes w) st).

(** The connect button stays usable, it is checked exactly while
    [self.worker] refers to a worker, and no other worker has a running
    thread. *)
Record wf (st : window) : Prop := WF {
  wf_enabled : btn_enabled (btn_connect st) = true;
  wf_checkable : btn_checkable (btn_connect st) = true;
  wf_off : btn_checked (btn_connect st) = false -> worker st = None;
  wf_on : btn_checked (btn_connect st) = true -> exists w, worker st = Some w;
  wf_bound : forall w, worker st = Some w -> w < length (workers st);
  wf_running : forall i o,
      nth_error (workers st) i = Some o -> thread o = Running ->
      worker st = Some i
}.

(** *** Lines with any white space between the items *)

(** The white space at gap [i] of a line, none when [sp] is too short. *)
Definition gap (sp : list text) (i : nat) : text := nth i sp [].

(** A reading with the white space [sp] in the twelve places where the
    pattern has [\s*]. *)
Definition spaced_line (sp : list text) (t h w a : text) : text :=
  str "T:" ++ gap sp 0 ++ t ++ gap sp 1 ++ str "C" ++ gap sp 2 ++ str "|"
  ++ gap sp 3 ++ str "H:" ++ gap sp 4 ++ h ++ gap sp 5 ++ str "%"
  ++ gap sp 6 ++ str "|" ++ gap sp 7 ++ str "Peso:" ++ gap sp 8 ++ w
  ++ gap sp 9 ++ str "|" ++ gap sp 10 ++ str "Aquecedor:" ++ gap sp 11 ++ a.

Definition blanks (sp : list text) : Prop :=
  Forall (Forall (fun c => is_space c = true)) sp.

(** *** Events of the window *)

(** What happens to the window: the two buttons, the port selector, the two
    signals of a worker, and the end of a worker's thread. *)
Inductive event : Type :=
| EvClick
| EvRefresh (ports : list text)
| EvSelect (i : nat)
| EvLine (line : text)
| EvError (error_msg : text)
| EvFinish (w : nat).

Definition fire (ev : event) : M unit :=
  match ev with
  | EvClick => click
  | EvRefresh ports => refresh_ports ports
  | EvSelect i => select_port i
  | EvLine line => process_data line
  | EvError error_msg => handle_error error_msg
  | EvFinish w => thread_finishes w
  end.

(** The refresh button and the port selector only answer while enabled. *)
Definition allowed (ev : event) (st : window) : Prop :=
  match ev with
  | EvRefresh _ => btn_enabled (btn_refresh st) = true
  | EvSelect _ => combo_enabled (combo_ports st) = true
  | _ => True
  end.

Fixpoint fire_all (evs : list event) (st : window) : window :=
  match evs with
  | [] => st
  | ev :: evs' => fire_all evs' (exec (fire ev) st)
  end.

(** The slots the window connects to the signals of a worker. *)
Definition deliver_one (s : Worker.signal) : M unit :=
  match s with
  | Worker.DataReceived line => process_data line
  | Worker.ErrorOccurred msg => handle_error msg
  end.

Fixpoint deliver (signals : list Worker.signal) (st : window) : window :=
  match signals with
  | [] => st
  | s :: signals' => deliver signals' (exec (deliver_one s) st)
  end.

(** The widgets that follow the connect toggle. *)
Record follows_toggle (st : window) : Prop := FollowsToggle {
  ft_combo : combo_enabled (combo_ports st) = negb (btn_checked (btn_connect st));
  ft_refresh : btn_enabled (btn_refresh st) = negb (btn_checked (btn_connect st));
  ft_text : btn_text (btn_connect st)
            = if btn_checked (btn_connect st)
              then str "Desconectar" else str "Conectar";
  ft_style : btn_style (btn_connect st)
             = if btn_checked (btn_connect st)
               then str "background-color: #ffcccc; color: red;" else []
}.

(** A worker the window refers to is live, one it has dropped is stopped. *)
Definition live (o : serial_worker) : Prop :=
  is_running o = true /\ thread o <> NotStarted /\
  baud_rate o = 115200%Z /\
  data_received o = [SlotProcessData] /\ error_occurred o = [SlotHandleError].

Definition stopped (o : serial_worker) : Prop :=
  is_running o = false /\ thread o = Finished.

Definition workers_kept (st : window) : Prop :=
  forall i o,
    nth_error (workers st) i = Some o ->
    (worker st = Some i -> live o) /\ (worker st <> Some i -> stopped o).

(** The cards as [setup_ui] and [process_data] leave them. *)
Record cards_kept (st : window) : Prop := CardsKept {
  ck_temp : card_title (lbl_temp st) = str "Temperatura" /\
            card_frame (lbl_temp st) = frame_style (str "#FF5722") /\
            exists v, card_label (lbl_temp st) = v ++ str " " ++ deg :: str "C";
  ck_hum : card_title (lbl_hum st) = str "Umidade" /\
           card_frame (lbl_hum st) = frame_style (str "#2196F3") /\
           exists v, card_label (lbl_hum st) = v ++ str " %";
  ck_weight : card_title (lbl_weight st) = str "Peso" /\
              card_frame (lbl_weight st) = frame_style (str "#4CAF50") /\
              exists v, card_label (lbl_weight st) = v ++ str " g";
  ck_heater : card_title (lbl_heater st) = str "Aquecedor" /\
              heater_token (card_label (lbl_heater st)) /\
              card_frame (lbl_heater st)
              = frame_style (if text_eqb (card_label (lbl_heater st)) (str "ON")
                             then color_warning else color_neutral)
}.

(** *** Runs of the worker *)

Definition blank (s : text) : Prop := Forall (fun c => is_space c = true) s.

(** The exception a tick raises, if it raises one. *)
Definition exception_of (tk : Worker.tick) : option text :=
  match tk with
  | Worker.InWaitingRaises e _ => Some e
  | Worker.ReadlineRaises e _ => Some e
  | Worker.StopRequested => None
  | Worker.NothingWaiting => None
  | Worker.Line _ => None
  end.


(** The tick ends the loop. *)
Definition ends_loop (tk : Worker.tick) : bool :=
  match tk with
  | Worker.StopRequested
  | Worker.InWaitingRaises _ _
  | Worker.ReadlineRaises _ _ => true
  | Worker.NothingWaiting
  | Worker.Line _ => false
  end.

(** ** Facts about text *)

Lemma text_eqb_eq (a b : text) : text_eqb a b = true <-> a = b.
Proof.
  unfold text_eqb. destruct (list_eq_dec ascii_dec a b); split; congruence.
Qed.

Lemma text_eqb_refl (a : text) : text_eqb a a = true.
Proof. now apply text_eqb_eq. Qed.

(** ** Facts about the matcher *)

Section Engine.

Implicit Types (r : regex) (s : text) (g m : groups).
Implicit Types (k : text -> groups -> option groups).

Lemma consumed_app s1 s2 : consumed (s1 ++ s2) s2 = s1.
Proof.
  unfold consumed. rewrite length_app.
  replace (length s1 + length s2 - length s2) with (length s1) by lia.
  rewrite firstn_app, firstn_all, Nat.sub_diag. simpl. apply app_nil_r.
Qed.

Lemma rmatch_seqs_cons r rs s g k :
  rmatch (seqs (r :: rs)) s g k
  = rmatch r s g (fun s' g' => rmatch (seqs rs) s' g' k).
Proof. reflexivity. Qed.

Lemma rmatch_lit_app l s g k : rmatch (lit l) (l ++ s) g k = k s g.
Proof.
  induction l as [|c l IH]; simpl; [reflexivity|].
  rewrite Ascii.eqb_refl. apply IH.
Qed.

Lemma rmatch_lit_nil c l g k : rmatch (lit (c :: l)) [] g k = None.
Proof. reflexivity. Qed.

Lemma rmatch_lit_head c l c' s g k :
  Ascii.eqb c c' = false -> rmatch (lit (c :: l)) (c' :: s) g k = None.
Proof. intros H. simpl. now rewrite H. Qed.

(** One turn of [p*], where [p] is a class. *)
Lemma rmatch_star_class_cons (p : ascii -> bool) c s g k :
  rmatch (Star (Class p)) (c :: s) g k
  = if p c
    then match rmatch (Star (Class p)) s g k with
         | Some m => Some m
         | None => k (c :: s) g
         end
    else k (c :: s) g.
Proof.
  simpl. destruct (p c); [|reflexivity].
  replace (length s <? S (length s)) with true; [reflexivity|].
  symmetry. apply Nat.ltb_lt. lia.
Qed.

Lemma rmatch_star_class_nil (p : ascii -> bool) g k :
  rmatch (Star (Class p)) [] g k = k [] g.
Proof. reflexivity. Qed.

Lemma rmatch_star_class_stops (p : ascii -> bool) s g k :
  stops p s -> rmatch (Star (Class p)) s g k = k s g.
Proof.
  destruct s as [|c s]; intros H; [reflexivity|].
  rewrite rmatch_star_class_cons. simpl in H. now rewrite H.
Qed.

(** A greedy [p*] in front of a continuation that cannot start inside the
    class takes the whole run, and nothing else is possible. *)
Lemma rmatch_star_class_run (p : ascii -> bool) run rest g k :
  Forall (fun c => p c = true) run -> stops p rest -> fails_on p k ->
  rmatch (Star (Class p)) (run ++ rest) g k = k rest g.
Proof.
  intros Hrun Hrest Hk. induction Hrun as [|c run Hc _ IH]; simpl app.
  - now apply rmatch_star_class_stops.
  - rewrite rmatch_star_class_cons, Hc, IH.
    destruct (k rest g) eqn:E; [reflexivity|]. now apply Hk.
Qed.

Lemma rmatch_group_plus_run n (p : ascii -> bool) tok rest g k :
  tok <> [] -> Forall (fun c => p c = true) tok -> stops p rest ->
  fails_on p k ->
  rmatch (Group n (plus (Class p))) (tok ++ rest) g k
  = k rest (set_group n tok g).
Proof.
  intros Hne Htok Hrest Hk. destruct tok as [|c tok]; [congruence|].
  inversion Htok as [|? ? Hc Htok']; subst.
  change (rmatch (Group n (plus (Class p))) ((c :: tok) ++ rest) g k)
    with (if p c
          then rmatch (Star (Class p)) (tok ++ rest) g
                 (fun s' g' =>
                    k s' (set_group n (consumed ((c :: tok) ++ rest) s') g'))
          else None).
  rewrite Hc, rmatch_star_class_run; auto.
  - now rewrite consumed_app.
  - intros c' s' g' Hc'. now apply Hk.
Qed.

Lemma rmatch_group_plus_stops n (p : ascii -> bool) s g k :
  stops p s -> rmatch (Group n (plus (Class p))) s g k = None.
Proof.
  destruct s as [|c s]; intros H; [reflexivity|].
  simpl in H. simpl. now rewrite H.
Qed.

End Engine.

(** ** The matcher against what the pattern describes *)

Section Soundness.

Implicit Types (r : regex) (s : text) (g m : groups).
Implicit Types (k : text -> groups -> option groups).

Lemma star_loop_sound r :
  sound_at r ->
  forall n s g k m,
    star_loop (rmatch r) k n s g = Some m ->
    exists s1 s2 g', s = s1 ++ s2 /\ matches (Star r) s1 g g' /\ k s2 g' = Some m.
Proof.
  intros IHr n. induction n as [|n IHn]; intros s g k m H; simpl in H.
  - exists [], s, g. repeat split; [constructor | assumption].
  - match type of H with
    | match ?body with _ => _ end = _ => destruct body as [m'|] eqn:E
    end.
    + injection H as ->.
      apply IHr in E. destruct E as (s1 & s2 & g1 & -> & M1 & K).
      destruct (length s2 <? length (s1 ++ s2)); [|discriminate].
      apply IHn in K. destruct K as (t1 & t2 & g2 & -> & M2 & K).
      exists (s1 ++ t1), t2, g2. repeat split.
      * now rewrite app_assoc.
      * econstructor; eassumption.
      * assumption.
    + exists [], s, g. repeat split; [constructor | assumption].
Qed.

Lemma rmatch_sound r : sound_at r.
Proof.
  induction r as [| c | p | r1 IH1 r2 IH2 | r1 IH1 r2 IH2 | r IH | n r IH];
    intros s g k m H; simpl in H.
  - exists [], s, g. repeat split; [constructor | assumption].
  - destruct s as [|c' s]; [discriminate|].
    destruct (Ascii.eqb_spec c c'); [subst c'|discriminate].
    exists [c], s, g. repeat split; [constructor | assumption].
  - destruct s as [|c' s]; [discriminate|].
    destruct (p c') eqn:E; [|discriminate].
    exists [c'], s, g. repeat split; [now constructor | assumption].
  - apply IH1 in H. destruct H as (s1 & s2 & g1 & -> & M1 & H).
    apply IH2 in H. destruct H as (t1 & t2 & g2 & -> & M2 & H).
    exists (s1 ++ t1), t2, g2. repeat split.
    + now rewrite app_assoc.
    + now econstructor; eauto.
    + assumption.
  - destruct (rmatch r1 s g k) as [m'|] eqn:E.
    + injection H as ->. apply IH1 in E.
      destruct E as (s1 & s2 & g1 & -> & M1 & K).
      exists s1, s2, g1. repeat split; [now apply MAltL | assumption].
    + apply IH2 in H. destruct H as (s1 & s2 & g1 & -> & M1 & K).
      exists s1, s2, g1. repeat split; [now apply MAltR | assumption].
  - now apply star_loop_sound in H.
  - apply IH in H. destruct H as (s1 & s2 & g1 & -> & M1 & K).
    rewrite consumed_app in K.
    exists s1, s2, (set_group n s1 g1). repeat split; [now constructor | assumption].
Qed.

Lemma match_here_sound r s m :
  match_here r s = Some m ->
  exists mid post, s = mid ++ post /\ matches r mid [] m.
Proof.
  intros H. apply rmatch_sound in H.
  destruct H as (s1 & s2 & g' & -> & M & K). injection K as ->.
  now exists s1, s2.
Qed.

Lemma star_loop_complete r :
  complete_at r ->
  forall s1 g0 g0', matches (Star r) s1 g0 g0' ->
  forall s2 g k n, accepts k s2 -> length (s1 ++ s2) <= n ->
    star_loop (rmatch r) k n (s1 ++ s2) g <> None.
Proof.
  intros IHr s1 g0 g0' M. remember (Star r) as r0 eqn:Er.
  induction M as [| | | | | | r' g1 | r' a b g1 g2 g3 Ma _ Mb IHb | ];
    try discriminate; injection Er as ->; intros s2 g k n Hk Hn.
  - simpl app. destruct n as [|n]; simpl; [apply Hk|].
    match goal with
    | |- match ?body with _ => _ end <> _ => destruct body
    end; [discriminate | apply Hk].
  - destruct a as [|c a]; [now apply IHb|].
    destruct n as [|n]; [simpl in Hn; lia|].
    simpl star_loop.
    match goal with
    | |- match ?body with _ => _ end <> _ => destruct body eqn:E
    end; [discriminate|].
    exfalso. revert E. rewrite <- app_assoc. apply (IHr _ _ _ Ma).
    intros g'.
    assert (Hlt : (length (b ++ s2) <? S (length (a ++ b ++ s2))) = true)
      by (apply Nat.ltb_lt; rewrite !length_app; lia).
    simpl. rewrite Hlt. apply IHb; auto.
    rewrite <- app_assoc in Hn. simpl in Hn. rewrite length_app in Hn. lia.
Qed.

Lemma rmatch_complete r : complete_at r.
Proof.
  induction r as [| c | p | r1 IH1 r2 IH2 | r1 IH1 r2 IH2 | r IH | n r IH];
    intros s1 g0 g0' M s2 g k Hk.
  - inversion M; subst. apply Hk.
  - inversion M; subst. simpl. rewrite Ascii.eqb_refl. apply Hk.
  - inversion M as [| |? ? ? Hp| | | | | |]; subst. simpl. rewrite Hp. apply Hk.
  - inversion M as [| | |? ? a b ? ? ? Ma Mb| | | | |]; subst.
    simpl. rewrite <- app_assoc. apply (IH1 _ _ _ Ma).
    intros gx. now apply (IH2 _ _ _ Mb).
  - simpl. destruct (rmatch r1 (s1 ++ s2) g k) eqn:E; [discriminate|].
    inversion M; subst.
    + exfalso. revert E. eapply IH1; eauto.
    + eapply IH2; eauto.
  - simpl. eapply star_loop_complete; eauto.
  - inversion M; subst. simpl. eapply IH; eauto.
    intros gx. apply Hk.
Qed.

Lemma match_here_complete r mid post g0 m :
  matches r mid g0 m -> match_here r (mid ++ post) <> None.
Proof.
  intros M. unfold match_here. eapply rmatch_complete; eauto.
  intros g. discriminate.
Qed.

Lemma search_complete r s : occurs r s -> search r s <> None.
Proof.
  intros (pre & mid & post & m & -> & M).
  induction pre as [|c pre IH].
  - simpl app. pose proof (match_here_complete post M) as H.
    destruct (mid ++ post); simpl; destruct (match_here r _);
      try discriminate; congruence.
  - simpl. destruct (match_here r _); [discriminate | exact IH].
Qed.

End Soundness.

(** ** What a match of [regex_pattern] holds *)

Section Pattern.

Implicit Types (r : regex) (s : text) (g m : groups).

Lemma matches_seqs_cons_inv r rs s g m :
  matches (seqs (r :: rs)) s g m ->
  exists s1 s2 g1, s = s1 ++ s2 /\ matches r s1 g g1 /\ matches (seqs rs) s2 g1 m.
Proof.
  intros M. inversion M; subst. eauto 6.
Qed.

Lemma matches_seqs_nil_inv s g m : matches (seqs []) s g m -> s = [] /\ m = g.
Proof. intros M. inversion M; subst. auto. Qed.

Lemma matches_lit_inv l s g m : matches (lit l) s g m -> s = l /\ m = g.
Proof.
  revert s g m. induction l as [|c l IH]; intros s g m M; simpl in M.
  - inversion M; subst. auto.
  - inversion M as [| | |? ? s1 s2 ? g1 ? M1 M2| | | | |]; subst.
    inversion M1; subst. apply IH in M2. destruct M2 as [-> ->]. auto.
Qed.

Lemma matches_star_class_inv (p : ascii -> bool) s g m :
  matches (Star (Class p)) s g m -> Forall (fun c => p c = true) s /\ m = g.
Proof.
  intros M. remember (Star (Class p)) as r0 eqn:Er.
  induction M as [| | | | | | r' g1 | r' a b g1 g2 g3 Ma _ Mb IHb | ];
    try discriminate; injection Er as ->.
  - auto.
  - inversion Ma; subst. destruct (IHb eq_refl) as [F ->]. split; [|reflexivity].
    simpl. now constructor.
Qed.

Lemma matches_plus_class_inv (p : ascii -> bool) s g m :
  matches (plus (Class p)) s g m ->
  s <> [] /\ Forall (fun c => p c = true) s /\ m = g.
Proof.
  intros M. inversion M as [| | |? ? s1 s2 ? g1 ? M1 M2| | | | |]; subst.
  inversion M1; subst. apply matches_star_class_inv in M2.
  destruct M2 as [F ->]. repeat split; [discriminate|]. simpl. now constructor.
Qed.

Lemma matches_group_inv n r s g m :
  matches (Group n r) s g m ->
  exists g1, matches r s g g1 /\ m = set_group n s g1.
Proof. intros M. inversion M; subst. eauto. Qed.

Lemma matches_alt_inv r1 r2 s g m :
  matches (Alt r1 r2) s g m -> matches r1 s g m \/ matches r2 s g m.
Proof. intros M. inversion M; subst; auto. Qed.

(** Every match of the pattern binds the four groups: two runs of digits
    and dots, a run of digits, dots and minus signs, and ON or OFF. *)
Lemma matches_pattern_inv mid g m :
  matches regex_pattern mid g m ->
  exists t h w a,
    m = four_groups t h w a ++ g /\
    num_token t /\ num_token h /\ signed_token w /\ heater_token a.
Proof.
  unfold regex_pattern. intros M.
  repeat match goal with
         | H : matches (seqs (_ :: _)) _ _ _ |- _ =>
             apply matches_seqs_cons_inv in H;
             destruct H as (? & ? & ? & -> & ? & H)
         end.
  apply matches_seqs_nil_inv in M. destruct M as [-> ->].
  repeat match goal with
         | H : matches (lit _) _ _ _ |- _ =>
             apply matches_lit_inv in H; destruct H as [-> ->]
         | H : matches ws _ _ _ |- _ =>
             apply matches_star_class_inv in H; destruct H as [? ->]
         end.
  repeat match goal with
         | H : matches (Group _ _) _ _ _ |- _ =>
             apply matches_group_inv in H; destruct H as (? & H & ->)
         end.
  repeat match goal with
         | H : matches (plus (Class _)) _ _ _ |- _ =>
             apply matches_plus_class_inv in H; destruct H as (? & ? & ->)
         end.
  match goal with
  | H : matches (Alt _ _) ?a ?g0 ?x |- _ =>
      assert (Ha : heater_token a /\ x = g0)
        by (apply matches_alt_inv in H; destruct H as [H|H];
            apply matches_lit_inv in H; destruct H as [-> ->];
            unfold heater_token; auto)
  end.
  destruct Ha as [Ha ->].
  do 4 eexists. split; [reflexivity|]. unfold num_token, signed_token. auto.
Qed.

Lemma search_sound_groups r s m :
  search r s = Some m ->
  exists pre mid post, s = pre ++ mid ++ post /\ matches r mid [] m.
Proof.
  induction s as [|c s IH]; simpl; intros H.
  - destruct (match_here r []) as [m'|] eqn:E; [|discriminate].
    injection H as ->. apply match_here_sound in E.
    destruct E as (mid & post & E & M). now exists [], mid, post.
  - destruct (match_here r (c :: s)) as [m'|] eqn:E.
    + injection H as ->. apply match_here_sound in E.
      destruct E as (mid & post & E & M). now exists [], mid, post.
    + apply IH in H. destruct H as (pre & mid & post & -> & M).
      now exists (c :: pre), mid, post.
Qed.

Lemma search_sound r s m : search r s = Some m -> occurs r s.
Proof.
  intros H. apply search_sound_groups in H.
  destruct H as (pre & mid & post & E & M). now exists pre, mid, post, m.
Qed.

Lemma search_groups line m :
  search regex_pattern line = Some m ->
  exists t h w a,
    m = four_groups t h w a /\
    num_token t /\ num_token h /\ signed_token w /\ heater_token a.
Proof.
  intros H. apply search_sound_groups in H.
  destruct H as (pre & mid & post & _ & M).
  apply matches_pattern_inv in M. destruct M as (t & h & w & a & E & R).
  exists t, h, w, a. split; [|exact R]. rewrite E. apply app_nil_r.
Qed.

End Pattern.

(** ** The pattern on the lines of the device *)

Section WireLine.

Implicit Types (r : regex) (s t h w a : text) (g m : groups).
Implicit Types (k : text -> groups -> option groups).

Ltac all_chars c :=
  destruct c as [[] [] [] [] [] [] [] []]; try discriminate; try reflexivity.

Lemma num_not_space c : num_char c = true -> is_space c = false.
Proof. all_chars c. Qed.

Lemma signed_not_space c : signed_num_char c = true -> is_space c = false.
Proof. all_chars c. Qed.

Lemma space_not_num c : is_space c = true -> num_char c = false.
Proof. all_chars c. Qed.

Lemma space_not_signed c : is_space c = true -> signed_num_char c = false.
Proof. all_chars c. Qed.

Lemma num_is_signed c : num_char c = true -> signed_num_char c = true.
Proof. all_chars c. Qed.

Lemma signed_is_num c :
  signed_num_char c = true -> c <> "-"%char -> num_char c = true.
Proof. all_chars c. congruence. Qed.

Lemma class_not_chr (p : ascii -> bool) c0 c :
  p c0 = false -> p c = true -> Ascii.eqb c0 c = false.
Proof.
  intros H0 H. destruct (Ascii.eqb_spec c0 c); [subst; congruence | reflexivity].
Qed.

Lemma stops_token (p q : ascii -> bool) tok rest :
  (forall c, q c = true -> p c = false) ->
  tok <> [] -> Forall (fun c => q c = true) tok -> stops p (tok ++ rest).
Proof.
  intros D Hne F. destruct tok as [|c tok]; [congruence|].
  inversion F; subst. simpl. auto.
Qed.

Lemma step_chr c l rs s g k :
  rmatch (seqs (lit (c :: l) :: rs)) (c :: s) g k
  = rmatch (seqs (lit l :: rs)) s g k.
Proof. simpl. now rewrite Ascii.eqb_refl. Qed.

Lemma step_lit_nil rs s g k :
  rmatch (seqs (lit [] :: rs)) s g k = rmatch (seqs rs) s g k.
Proof. reflexivity. Qed.

Lemma step_chr_fail c l rs s g k :
  match s with
  | [] => True
  | c' :: _ => Ascii.eqb c c' = false
  end ->
  rmatch (seqs (lit (c :: l) :: rs)) s g k = None.
Proof.
  destruct s as [|c' s]; intros H; [reflexivity|]. simpl. now rewrite H.
Qed.

Lemma step_ws rs run rest g k :
  Forall (fun c => is_space c = true) run -> stops is_space rest ->
  fails_on is_space (fun s' g' => rmatch (seqs rs) s' g' k) ->
  rmatch (seqs (ws :: rs)) (run ++ rest) g k = rmatch (seqs rs) rest g k.
Proof.
  intros. rewrite rmatch_seqs_cons. unfold ws.
  now rewrite rmatch_star_class_run.
Qed.

Lemma step_ws1 rs rest g k :
  stops is_space rest ->
  fails_on is_space (fun s' g' => rmatch (seqs rs) s' g' k) ->
  rmatch (seqs (ws :: rs)) (" "%char :: rest) g k = rmatch (seqs rs) rest g k.
Proof.
  intros. apply step_ws with (run := [" "%char]); auto.
Qed.

Lemma step_ws0 rs rest g k :
  stops is_space rest ->
  rmatch (seqs (ws :: rs)) rest g k = rmatch (seqs rs) rest g k.
Proof.
  intros. rewrite rmatch_seqs_cons. unfold ws.
  now rewrite rmatch_star_class_stops.
Qed.

Lemma fails_on_lit (p : ascii -> bool) c0 l rs k :
  p c0 = false ->
  fails_on p (fun s g => rmatch (seqs (lit (c0 :: l) :: rs)) s g k).
Proof.
  intros H0 c s g Hc. apply step_chr_fail. now apply class_not_chr with p.
Qed.

Lemma fails_on_ws_lit (p : ascii -> bool) c0 l rs k :
  (forall c, p c = true -> is_space c = false) -> p c0 = false ->
  fails_on p (fun s g => rmatch (seqs (ws :: lit (c0 :: l) :: rs)) s g k).
Proof.
  intros D H0 c s g Hc. rewrite step_ws0 by (simpl; auto).
  now apply fails_on_lit with p.
Qed.

Lemma fails_on_group_plus (p q : ascii -> bool) n rs k :
  (forall c, p c = true -> q c = false) ->
  fails_on p (fun s g => rmatch (seqs (Group n (plus (Class q)) :: rs)) s g k).
Proof.
  intros D c s g Hc. rewrite rmatch_seqs_cons.
  apply rmatch_group_plus_stops. simpl. auto.
Qed.

Lemma fails_on_heater n k :
  fails_on is_space
    (fun s g =>
       rmatch (seqs [Group n (Alt (lit (str "ON")) (lit (str "OFF")))]) s g k).
Proof.
  intros c s g Hc.
  assert (E : Ascii.eqb "O" c = false)
    by (apply class_not_chr with is_space; auto).
  cbn [rmatch seqs].
  change (str "ON") with ["O"; "N"]%char.
  change (str "OFF") with ["O"; "F"; "F"]%char.
  now rewrite !rmatch_lit_head.
Qed.

(** A numeric field of the pattern on its token. *)
Lemma step_field n (p : ascii -> bool) c0 l rs tok rest g k :
  (forall c, p c = true -> is_space c = false) -> p c0 = false ->
  tok <> [] -> Forall (fun c => p c = true) tok -> stops p rest ->
  rmatch (seqs (Group n (plus (Class p)) :: ws :: lit (c0 :: l) :: rs))
         (tok ++ rest) g k
  = rmatch (seqs (ws :: lit (c0 :: l) :: rs)) rest (set_group n tok g) k.
Proof.
  intros D H0 Hne F Hrest. rewrite rmatch_seqs_cons.
  rewrite rmatch_group_plus_run; auto.
  now apply fails_on_ws_lit.
Qed.

(** A numeric field on a token with a character [x] that neither the class
    nor what follows the field accepts. *)
Lemma step_field_stuck n (p : ascii -> bool) c0 l rs t1 x t2 g k :
  (forall c, p c = true -> is_space c = false) -> p c0 = false ->
  Forall (fun c => p c = true) t1 ->
  p x = false -> is_space x = false -> Ascii.eqb c0 x = false ->
  rmatch (seqs (Group n (plus (Class p)) :: ws :: lit (c0 :: l) :: rs))
         (t1 ++ x :: t2) g k = None.
Proof.
  intros D H0 F Hx Sx Cx. destruct t1 as [|c t1].
  - rewrite rmatch_seqs_cons. now apply rmatch_group_plus_stops.
  - rewrite step_field; auto; [|discriminate].
    rewrite step_ws0 by assumption. now apply step_chr_fail.
Qed.

Lemma stops_space_num tok rest :
  tok <> [] -> Forall (fun c => num_char c = true) tok ->
  stops is_space (tok ++ rest).
Proof. apply stops_token. exact num_not_space. Qed.

Lemma stops_space_signed tok rest :
  tok <> [] -> Forall (fun c => signed_num_char c = true) tok ->
  stops is_space (tok ++ rest).
Proof. apply stops_token. exact signed_not_space. Qed.

Ltac side :=
  first [ assumption
        | reflexivity
        | exact num_not_space
        | exact signed_not_space
        | apply fails_on_lit; reflexivity
        | apply fails_on_group_plus; exact space_not_num
        | apply fails_on_group_plus; exact space_not_signed
        | apply fails_on_heater
        | apply stops_space_num; assumption
        | apply stops_space_signed; assumption ].

Ltac step :=
  first [ rewrite step_chr
        | rewrite step_lit_nil
        | rewrite step_ws1 by side
        | rewrite step_field by side ].

Ltac literals :=
  unfold regex_pattern, wire_line;
  cbn [str list_ascii_of_string app].

(** Up to a token with a character the field does not take, the pattern
    goes through a line of the device in one way only. *)
Lemma match_wire_line_from g k t h w a :
  num_token t -> num_token h -> signed_token w -> heater_token a ->
  rmatch regex_pattern (wire_line t h w a) g k
  = k [] (four_groups t h w a ++ g).
Proof.
  intros [Nt Ft] [Nh Fh] [Nw Fw] [-> | ->]; literals; repeat step; cbv;
    match goal with |- context [k ?s ?m] => destruct (k s m) end; reflexivity.
Qed.

Lemma match_here_wire_line t h w a :
  num_token t -> num_token h -> signed_token w -> heater_token a ->
  match_here regex_pattern (wire_line t h w a) = Some (four_groups t h w a).
Proof.
  intros. unfold match_here. rewrite match_wire_line_from by assumption.
  now rewrite app_nil_r.
Qed.

Lemma search_wire_line t h w a :
  num_token t -> num_token h -> signed_token w -> heater_token a ->
  search regex_pattern (wire_line t h w a) = Some (four_groups t h w a).
Proof.
  intros. unfold wire_line. cbn [str list_ascii_of_string app search].
  change ("T"%char :: ":"%char :: " "%char :: t ++ ?x)
    with (wire_line t h w a).
  now rewrite match_here_wire_line.
Qed.

(** No match starts anywhere in a text without a [T]. *)
Lemma search_no_T s :
  Forall (fun c => Ascii.eqb "T" c = false) s -> search regex_pattern s = None.
Proof.
  assert (Hnil : match_here regex_pattern [] = None) by reflexivity.
  induction 1 as [|c s Hc _ IH]; cbn [search].
  - now rewrite Hnil.
  - replace (match_here regex_pattern (c :: s)) with (@None groups); [exact IH|].
    symmetry. unfold match_here, regex_pattern.
    cbn [str list_ascii_of_string]. now apply step_chr_fail.
Qed.

Lemma signed_not_T c : signed_num_char c = true -> Ascii.eqb "T" c = false.
Proof. now apply class_not_chr. Qed.

Lemma wire_line_tail_no_T t h w a :
  Forall (fun c => signed_num_char c = true) t ->
  Forall (fun c => signed_num_char c = true) h ->
  Forall (fun c => signed_num_char c = true) w ->
  heater_token a ->
  Forall (fun c => Ascii.eqb "T" c = false) (tl (wire_line t h w a)).
Proof.
  intros Ft Fh Fw Ha.
  assert (S : forall x, Forall (fun c => signed_num_char c = true) x ->
                        Forall (fun c => Ascii.eqb "T" c = false) x)
    by (intros x; apply Forall_impl; exact signed_not_T).
  unfold wire_line. cbn [str list_ascii_of_string app tl].
  repeat (first [ apply Forall_cons; [reflexivity|]
                | apply Forall_app; split; [now apply S|] ]).
  destruct Ha as [-> | ->]; repeat constructor.
Qed.

(** The first minus sign of a token, after digits and dots only. *)
Lemma split_minus t :
  Forall (fun c => signed_num_char c = true) t -> In "-"%char t ->
  exists t1 t2,
    t = t1 ++ "-"%char :: t2 /\ Forall (fun c => num_char c = true) t1.
Proof.
  induction 1 as [|c t Hc _ IH]; intros Hin; [contradiction|].
  destruct (ascii_dec c "-") as [-> | Hne].
  - now exists [], t.
  - destruct Hin as [E | Hin]; [congruence|].
    destruct (IH Hin) as (t1 & t2 & -> & F).
    exists (c :: t1), t2. split; [reflexivity|].
    constructor; [now apply signed_is_num | assumption].
Qed.

Lemma no_minus_num t :
  Forall (fun c => signed_num_char c = true) t -> ~ In "-"%char t ->
  Forall (fun c => num_char c = true) t.
Proof.
  induction 1 as [|c t Hc _ IH]; intros Hin; constructor.
  - apply signed_is_num; [assumption|]. intros ->. apply Hin. now left.
  - apply IH. intros H. apply Hin. now right.
Qed.

(** A minus sign in the temperature stops the match in the first field. *)
Lemma match_here_minus_temp t h w a :
  Forall (fun c => signed_num_char c = true) t -> In "-"%char t ->
  match_here regex_pattern (wire_line t h w a) = None.
Proof.
  intros Ft Hin. destruct (split_minus Ft Hin) as (t1 & t2 & -> & F1).
  unfold match_here. literals. rewrite <- app_assoc. cbn [app].
  do 3 step.
  rewrite step_ws1.
  - now apply step_field_stuck with (p := num_char); side.
  - destruct t1 as [|c t1]; [reflexivity|]. inversion F1; subst.
    simpl. now apply num_not_space.
  - side.
Qed.

(** A minus sign in the humidity stops the match in the second field. *)
Lemma match_here_minus_hum t h w a :
  num_token t ->
  Forall (fun c => signed_num_char c = true) h -> In "-"%char h ->
  match_here regex_pattern (wire_line t h w a) = None.
Proof.
  intros [Nt Ft] Fh Hin. destruct (split_minus Fh Hin) as (h1 & h2 & -> & F1).
  unfold match_here. literals. rewrite <- app_assoc. cbn [app].
  do 15 step.
  rewrite step_ws1.
  - now apply step_field_stuck with (p := num_char); side.
  - destruct h1 as [|c h1]; [reflexivity|]. inversion F1; subst.
    simpl. now apply num_not_space.
  - side.
Qed.

(** A line of the device with a minus sign in the temperature or in the
    humidity holds no match. *)
Lemma search_wire_line_minus t h w a :
  signed_token t -> signed_token h -> signed_token w -> heater_token a ->
  In "-"%char t \/ In "-"%char h ->
  search regex_pattern (wire_line t h w a) = None.
Proof.
  intros [Nt Ft] [Nh Fh] [Nw Fw] Ha Hin.
  assert (Hhere : match_here regex_pattern (wire_line t h w a) = None).
  { destruct (in_dec ascii_dec "-"%char t) as [Ht | Ht].
    - now apply match_here_minus_temp.
    - destruct Hin as [Hin | Hin]; [contradiction|].
      apply match_here_minus_hum; auto. split; [assumption|].
      now apply no_minus_num. }
  pose proof (wire_line_tail_no_T Ft Fh Fw Ha) as Htl.
  apply search_no_T in Htl. revert Hhere Htl.
  unfold wire_line. cbn [str list_ascii_of_string app search tl].
  now intros -> ->.
Qed.

End WireLine.

(** ** Line events *)

Section LineEvents.

Implicit Types (line t h w a : text) (st : window) (m : groups).

Lemma process_data_unmatched line st :
  search regex_pattern line = None ->
  exec (process_data line) st
  = record_call (CallLog line) (with_log (fun l => l ++ [line]) st).
Proof.
  intros H. unfold process_data, exec, bind, log_message, modify.
  now rewrite H.
Qed.

Lemma display_unmatched line st :
  search regex_pattern line = None ->
  display (exec (process_data line) st) = display st.
Proof. intros H. now rewrite process_data_unmatched. Qed.

Lemma display_matched line st t h w a :
  search regex_pattern line = Some (four_groups t h w a) ->
  display (exec (process_data line) st) = shown t h w a.
Proof.
  intros H. unfold process_data, exec, bind, log_message, modify.
  rewrite H. cbn [group four_groups Nat.eqb]. unfold shown.
  destruct (text_eqb a (str "ON")); reflexivity.
Qed.

Lemma log_process_data line st :
  log_view (exec (process_data line) st) = log_view st ++ [line].
Proof.
  unfold process_data, exec, bind, log_message, modify.
  destruct (search regex_pattern line) as [m|] eqn:E; [|reflexivity].
  destruct (search_groups _ E) as (t & h & w & a & -> & _).
  cbn [group four_groups Nat.eqb].
  destruct (text_eqb a (str "ON")); reflexivity.
Qed.

(** After a match the display no longer depends on what it was. *)
Lemma display_matched_any line st st0 m :
  search regex_pattern line = Some m ->
  display (exec (process_data line) st) = display (exec (process_data line) st0).
Proof.
  intros H. destruct (search_groups _ H) as (t & h & w & a & -> & _).
  now rewrite !display_matched with (t := t) (h := h) (w := w) (a := a).
Qed.

Lemma display_process_lines lines st st0 :
  display (process_lines lines st)
  = match last_match lines with
    | Some l => display (exec (process_data l) st0)
    | None => display st
    end.
Proof.
  revert st. induction lines as [|l lines IH]; intros st; [reflexivity|].
  cbn [process_lines last_match]. rewrite IH.
  destruct (last_match lines); [reflexivity|].
  destruct (search regex_pattern l) eqn:E.
  - now apply display_matched_any with g.
  - now apply display_unmatched.
Qed.

(** C1: a line in which the pattern is not found changes none of the four
    value labels and not the colour of the heater card: the window is as
    before but for the entry the log gains.  After any sequence of lines the
    display is the one of the most recent line with a match, or the one
    before the sequence when there is none. *)
Theorem unmatched_lines_keep_display :
  forall (lines : list text) (line : text) (st st0 : window),
    (search regex_pattern line = None ->
     display (exec (process_data line) st) = display st /\
     log_view (exec (process_data line) st) = log_view st ++ [line] /\
     exec (process_data line) st
     = record_call (CallLog line) (with_log (fun l => l ++ [line]) st)) /\
    display (process_lines lines st)
    = match last_match lines with
      | Some l => display (exec (process_data l) st0)
      | None => display st
      end.
Proof.
  intros lines line st st0. split.
  - intros H. split; [now apply display_unmatched|].
    split; [apply log_process_data | now apply process_data_unmatched].
  - apply display_process_lines.
Qed.

Lemma unmatched_lines_keep_display_witness :
  search regex_pattern (str "garbage line") = None /\
  display (exec (process_data (str "garbage line")) (init []))
  = display (init []) /\
  display (process_lines [example_line; str "garbage line"] (init []))
  = shown (str "85.0") (str "20.0") (str "150") (str "ON").
Proof.
  split; [reflexivity|]. split.
  - apply (proj1 (unmatched_lines_keep_display [] (str "garbage line")
                    (init []) (init []))).
    reflexivity.
  - rewrite (proj2 (unmatched_lines_keep_display
                      [example_line; str "garbage line"] [] (init [])
                      (init []))).
    reflexivity.
Defined.

End LineEvents.

Section Claims.

Implicit Types (line t h w a : text) (st : window) (m : groups).

(** C2, as stated, fails: on the example line of the comment in
    [process_data] the pattern is found, and the temperature, humidity and
    weight labels are not the captured strings. *)
Lemma labels_are_not_the_groups :
  exists m,
    search regex_pattern example_line = Some m /\
    group m 1 = Some (str "85.0") /\
    group m 2 = Some (str "20.0") /\
    group m 3 = Some (str "150") /\
    card_label (lbl_temp (exec (process_data example_line) (init [])))
      <> str "85.0" /\
    card_label (lbl_hum (exec (process_data example_line) (init [])))
      <> str "20.0" /\
    card_label (lbl_weight (exec (process_data example_line) (init [])))
      <> str "150".
Proof.
  exists (four_groups (str "85.0") (str "20.0") (str "150") (str "ON")).
  repeat split; try reflexivity; discriminate.
Qed.

(** C2, amended: on every line in which the pattern is found the four
    groups are bound, the temperature, humidity and weight labels are the
    captured strings of groups 1 to 3, unchanged, followed by the unit
    suffixes [ °C], [ %] and [ g], and the heater label is the captured
    string of group 4. *)
Theorem labels_are_groups_with_units :
  forall (line : text) (m : groups) (st : window),
    search regex_pattern line = Some m ->
    exists temp hum weight heater,
      group m 1 = Some temp /\ group m 2 = Some hum /\
      group m 3 = Some weight /\ group m 4 = Some heater /\
      let st' := exec (process_data line) st in
      card_label (lbl_temp st') = temp ++ str " " ++ deg :: str "C" /\
      card_label (lbl_hum st') = hum ++ str " %" /\
      card_label (lbl_weight st') = weight ++ str " g" /\
      card_label (lbl_heater st') = heater.
Proof.
  intros line m st H.
  destruct (search_groups _ H) as (t & h & w & a & -> & _).
  exists t, h, w, a. repeat split; try reflexivity;
    pose proof (display_matched _ st H) as D; unfold display, shown in D;
    congruence.
Qed.

Lemma labels_are_groups_with_units_witness :
  exists temp hum weight heater,
    group (four_groups (str "85.0") (str "20.0") (str "150") (str "ON")) 1
    = Some temp /\
    group (four_groups (str "85.0") (str "20.0") (str "150") (str "ON")) 2
    = Some hum /\
    group (four_groups (str "85.0") (str "20.0") (str "150") (str "ON")) 3
    = Some weight /\
    group (four_groups (str "85.0") (str "20.0") (str "150") (str "ON")) 4
    = Some heater /\
    let st' := exec (process_data example_line) (init []) in
    card_label (lbl_temp st') = temp ++ str " " ++ deg :: str "C" /\
    card_label (lbl_hum st') = hum ++ str " %" /\
    card_label (lbl_weight st') = weight ++ str " g" /\
    card_label (lbl_heater st') = heater.
Proof.
  apply (labels_are_groups_with_units example_line (init [])). reflexivity.
Defined.

(** C4: on every line in which the pattern is found, the colour of the
    heater card is a function of the captured heater token alone: the
    warning colour when the token is ON, the neutral colour for any other
    token. *)
Theorem heater_colour_of_token :
  forall (line : text) (m : groups) (st : window),
    search regex_pattern line = Some m ->
    exists heater,
      group m 4 = Some heater /\
      card_frame (lbl_heater (exec (process_data line) st))
      = if text_eqb heater (str "ON")
        then str "QFrame { background-color: #F44336; border-radius: 10px; }"
        else str "QFrame { background-color: #9E9E9E; border-radius: 10px; }".
Proof.
  intros line m st H.
  destruct (search_groups _ H) as (t & h & w & a & -> & _).
  exists a. split; [reflexivity|].
  pose proof (display_matched _ st H) as D. unfold display, shown in D.
  assert (D' : card_frame (lbl_heater (exec (process_data line) st))
               = frame_style (if text_eqb a (str "ON")
                              then color_warning else color_neutral))
    by congruence.
  rewrite D'. destruct (text_eqb a (str "ON")); reflexivity.
Qed.

Lemma heater_colour_of_token_witness :
  exists heater,
    group (four_groups (str "85.0") (str "20.0") (str "150") (str "ON")) 4
    = Some heater /\
    card_frame (lbl_heater (exec (process_data example_line) (init [])))
    = if text_eqb heater (str "ON")
      then str "QFrame { background-color: #F44336; border-radius: 10px; }"
      else str "QFrame { background-color: #9E9E9E; border-radius: 10px; }".
Proof.
  apply (heater_colour_of_token example_line (init [])). reflexivity.
Defined.

(** C3, as stated, fails: a line that holds the shape of the wire format
    between other text is not of that shape, and not even matched as a
    whole by the pattern, and it changes the display. *)
Lemma padded_line_updates :
  ~ wire_shaped padded_line /\
  fullmatch regex_pattern padded_line = None /\
  display (exec (process_data padded_line) (init []))
  = shown (str "85.0") (str "20.0") (str "150") (str "ON") /\
  display (exec (process_data padded_line) (init [])) <> display (init []).
Proof.
  split; [|split; [reflexivity | split; [reflexivity | discriminate]]].
  intros (t & h & w & a & _ & _ & _ & _ & E). discriminate E.
Qed.

Lemma occurs_wire_line pre post t h w a :
  num_token t -> num_token h -> signed_token w -> heater_token a ->
  occurs regex_pattern (pre ++ wire_line t h w a ++ post).
Proof.
  intros Ht Hh Hw Ha.
  destruct (match_here_sound _ _ (match_here_wire_line Ht Hh Hw Ha))
    as (mid & rest & E & M).
  exists pre, mid, (rest ++ post), (four_groups t h w a).
  split; [|assumption]. now rewrite E, <- app_assoc.
Qed.

(** C3, amended: the dashboard is updated by exactly the lines in which the
    pattern occurs somewhere.  Such a line sets the display to the tokens of
    a match; a line in which the pattern occurs nowhere leaves the display
    as it was; both are logged.  A line that holds a line of the device
    between other text is one in which the pattern occurs. *)
Theorem pattern_found_anywhere_updates :
  forall (line : text) (st : window),
    (occurs regex_pattern line ->
     exists t h w a,
       num_token t /\ num_token h /\ signed_token w /\ heater_token a /\
       display (exec (process_data line) st) = shown t h w a) /\
    (~ occurs regex_pattern line ->
     display (exec (process_data line) st) = display st) /\
    log_view (exec (process_data line) st) = log_view st ++ [line] /\
    (forall pre post t h w a,
       num_token t -> num_token h -> signed_token w -> heater_token a ->
       line = pre ++ wire_line t h w a ++ post ->
       occurs regex_pattern line).
Proof.
  intros line st. split; [|split; [|split]].
  - intros O. apply search_complete in O.
    destruct (search regex_pattern line) as [m|] eqn:E; [|congruence].
    destruct (search_groups _ E) as (t & h & w & a & -> & Ht & Hh & Hw & Ha).
    exists t, h, w, a. pose proof (display_matched _ st E). tauto.
  - intros O. apply display_unmatched.
    destruct (search regex_pattern line) as [m|] eqn:E; [|reflexivity].
    exfalso. apply O. now apply search_sound with m.
  - apply log_process_data.
  - intros pre post t h w a Ht Hh Hw Ha ->. now apply occurs_wire_line.
Qed.

Lemma pattern_found_anywhere_updates_witness :
  (exists t h w a,
     num_token t /\ num_token h /\ signed_token w /\ heater_token a /\
     display (exec (process_data padded_line) (init [])) = shown t h w a) /\
  display (exec (process_data (str "garbage line")) (init []))
  = display (init []).
Proof.
  assert (T1 : num_token (str "85.0"))
    by (split; [discriminate | repeat constructor]).
  assert (T2 : num_token (str "20.0"))
    by (split; [discriminate | repeat constructor]).
  assert (T3 : signed_token (str "150"))
    by (split; [discriminate | repeat constructor]).
  assert (T4 : heater_token (str "ON")) by (left; reflexivity).
  split.
  - apply (proj1 (pattern_found_anywhere_updates padded_line (init []))).
    apply (occurs_wire_line (str "xx ") (str " yy") T1 T2 T3 T4).
  - apply (proj1 (proj2 (pattern_found_anywhere_updates (str "garbage line")
                           (init [])))).
    intros O. apply search_complete in O. apply O. reflexivity.
Defined.


(** C10: the tokens are taken as runs of the characters of their class and
    nothing checks that they are decimals: every line of the device with
    such runs is matched and shows them as they are, and there are runs
    that are no decimals, [...], [1.2.3] and [1-2] among them. *)
Theorem tokens_are_not_validated :
  (forall (t h w a : text) (st : window),
     num_token t -> num_token h -> signed_token w -> heater_token a ->
     search regex_pattern (wire_line t h w a) = Some (four_groups t h w a) /\
     display (exec (process_data (wire_line t h w a)) st) = shown t h w a) /\
  num_token (str "...") /\ is_decimal (str "...") = false /\
  num_token (str "1.2.3") /\ is_decimal (str "1.2.3") = false /\
  signed_token (str "1-2") /\ is_decimal (str "1-2") = false /\
  display (exec (process_data
                   (str "T: ... C | H: 1.2.3 % | Peso: 1-2 | Aquecedor: OFF"))
                (init []))
  = (str "... " ++ deg :: str "C", str "1.2.3 %", str "1-2 g", str "OFF",
     str "QFrame { background-color: #9E9E9E; border-radius: 10px; }").
Proof.
  split.
  - intros t h w a st Ht Hh Hw Ha.
    pose proof (search_wire_line Ht Hh Hw Ha) as S.
    split; [exact S | now apply display_matched].
  - repeat split; try reflexivity; try discriminate; repeat constructor.
Qed.

Lemma tokens_are_not_validated_witness :
  search regex_pattern (wire_line (str "...") (str "1.2.3") (str "1-2") (str "OFF"))
  = Some (four_groups (str "...") (str "1.2.3") (str "1-2") (str "OFF")) /\
  display (exec (process_data
                   (wire_line (str "...") (str "1.2.3") (str "1-2") (str "OFF")))
                (init []))
  = shown (str "...") (str "1.2.3") (str "1-2") (str "OFF").
Proof.
  apply (proj1 tokens_are_not_validated).
  - split; [discriminate | repeat constructor].
  - split; [discriminate | repeat constructor].
  - split; [discriminate | repeat constructor].
  - right; reflexivity.
Defined.

End Claims.

(** ** The connection life cycle *)

Section LifeCycle.

Implicit Types (st : window) (w i : nat).

Lemma length_update_nth {A : Type} n (f : A -> A) (l : list A) :
  length (update_nth n f l) = length l.
Proof.
  revert n. induction l as [|x l IH]; intros [|n]; simpl; auto.
Qed.

Lemma nth_error_update_nth {A : Type} n (f : A -> A) (l : list A) i :
  nth_error (update_nth n f l) i
  = if Nat.eqb i n then option_map f (nth_error l i) else nth_error l i.
Proof.
  revert n i. induction l as [|x l IH]; intros [|n] [|i]; simpl; auto.
  now destruct (i =? n).
Qed.

Lemma exec_bind {A B : Type} (m : M A) (f : A -> M B) st :
  exec (bind m f) st = exec (f (fst (m st))) (snd (m st)).
Proof. unfold exec, bind. now destruct (m st). Qed.

Ltac open_window st :=
  destruct st as [wk [items idx cen] [rt re rk rc rs] [bt be bk bc bs]
                  c1 c2 c3 c4 lg ws cs];
  cbn [worker combo_ports btn_refresh btn_connect lbl_temp lbl_hum lbl_weight
       lbl_heater log_view workers calls btn_text btn_enabled btn_checkable
       btn_checked btn_style combo_items combo_index combo_enabled] in *.

Ltac run_methods :=
  cbv [exec click toggle_connection handle_error bind gets modify ret
       isChecked setChecked setText setStyleSheet currentText combo_setEnabled
       refresh_setEnabled log_message worker_new on_worker connect_data
       connect_error worker_start worker_wait worker_stop record_call
       with_worker with_combo with_refresh with_connect with_log with_workers
       select_port thread_finishes combo_clear combo_addItem
       worker combo_ports btn_refresh btn_connect lbl_temp lbl_hum lbl_weight
       lbl_heater log_view workers calls btn_text btn_enabled btn_checkable
       btn_checked btn_style combo_items combo_index combo_enabled
       fst snd negb] in *.

Lemma wf_ext st st' :
  worker st' = worker st -> btn_connect st' = btn_connect st ->
  workers st' = workers st -> wf st -> wf st'.
Proof.
  intros E1 E2 E3 [H1 H2 H3 H4 H5 H6].
  split; rewrite ?E1, ?E2, ?E3; assumption.
Qed.

Lemma process_data_core line st :
  let st' := exec (process_data line) st in
  worker st' = worker st /\ combo_ports st' = combo_ports st /\
  btn_refresh st' = btn_refresh st /\ btn_connect st' = btn_connect st /\
  workers st' = workers st.
Proof.
  unfold process_data, exec, bind, log_message, modify.
  destruct (search regex_pattern line) as [m|] eqn:E; [|now repeat split].
  destruct (search_groups _ E) as (t & h & w & a & -> & _).
  cbn [group four_groups Nat.eqb].
  destruct (text_eqb a (str "ON")); now repeat split.
Qed.

Lemma add_ports_core ports st :
  let st' := exec (add_ports ports) st in
  worker st' = worker st /\ btn_connect st' = btn_connect st /\
  workers st' = workers st.
Proof.
  revert st. induction ports as [|p ports IH]; intros st; [now repeat split|].
  cbn [add_ports]. rewrite exec_bind. cbv zeta in *.
  destruct (IH (snd (combo_addItem p st))) as (E1 & E2 & E3).
  now rewrite E1, E2, E3.
Qed.

Lemma refresh_ports_core ports st :
  let st' := exec (refresh_ports ports) st in
  worker st' = worker st /\ btn_connect st' = btn_connect st /\
  workers st' = workers st.
Proof.
  unfold refresh_ports. rewrite exec_bind. cbv zeta.
  destruct (add_ports_core ports (snd (combo_clear st))) as (E1 & E2 & E3).
  now rewrite E1, E2, E3.
Qed.

Lemma wf_init ports : wf (init ports).
Proof.
  unfold init. destruct (refresh_ports_core ports setup_ui) as (E1 & E2 & E3).
  apply wf_ext with setup_ui; auto.
  split; try reflexivity; cbn; try discriminate.
  intros [|i] o; discriminate.
Qed.

Lemma wf_click st : wf st -> wf (exec click st).
Proof.
  intros [H1 H2 H3 H4 H5 H6]. open_window st. subst be bk.
  destruct bc.
  - destruct (H4 eq_refl) as [w ->]. run_methods.
    split; cbn; try reflexivity; try discriminate.
    intros i o. rewrite !nth_error_update_nth.
    destruct (i =? w) eqn:E.
    + destruct (nth_error ws i) as [o'|]; [|discriminate].
      cbn. intros [= <-]. cbn. destruct (thread o'); discriminate.
    + intros Hn Hr. specialize (H6 _ _ Hn Hr). injection H6 as ->.
      now rewrite Nat.eqb_refl in E.
  - rewrite (H3 eq_refl) in *. run_methods.
    destruct (combo_text _) as [|c port] eqn:P.
    + split; cbn; try reflexivity; try discriminate; auto.
    + split; cbn; try reflexivity; try discriminate; eauto.
      * intros w [= <-]. rewrite !length_update_nth, length_app. simpl. lia.
      * intros i o. rewrite !nth_error_update_nth.
        destruct (i =? length ws) eqn:E.
        -- apply Nat.eqb_eq in E. now subst.
        -- intros Hn Hr. exfalso.
           destruct (Nat.lt_ge_cases i (length ws)) as [Hlt | Hge].
           ++ rewrite nth_error_app1 in Hn by assumption.
              specialize (H6 _ _ Hn Hr). discriminate.
           ++ apply Nat.eqb_neq in E.
              assert (Hnone : nth_error (ws ++ [new_worker (c :: port)]) i = None)
                by (apply nth_error_None; rewrite length_app; simpl; lia).
              congruence.
Qed.

Lemma wf_log msg st : wf st -> wf (exec (log_message msg) st).
Proof. now apply wf_ext. Qed.

Lemma wf_handle_error msg st : wf st -> wf (exec (handle_error msg) st).
Proof.
  intros H. unfold handle_error. rewrite exec_bind.
  apply wf_click. now apply (wf_log (str "ERRO: " ++ msg)).
Qed.

Lemma wf_thread_finishes w st : wf st -> wf (exec (thread_finishes w) st).
Proof.
  intros [H1 H2 H3 H4 H5 H6]. open_window st. run_methods.
  split; cbn; auto.
  - intros w' E. rewrite length_update_nth. auto.
  - intros i o. rewrite nth_error_update_nth.
    destruct (i =? w) eqn:E; [|now apply H6].
    destruct (nth_error ws i) as [o'|] eqn:N; [|discriminate].
    cbn. intros [= <-]. cbn. destruct (thread o') eqn:T; try discriminate.
Qed.

Lemma reachable_wf st : reachable st -> wf st.
Proof.
  induction 1 as [ports | st _ IH | st ports _ IH _ | st i _ IH _
                 | st line _ IH | st msg _ IH | st w _ IH].
  - apply wf_init.
  - now apply wf_click.
  - destruct (refresh_ports_core ports st) as (E1 & E2 & E3).
    now apply wf_ext with st.
  - now apply wf_ext with st.
  - destruct (process_data_core line st) as (E1 & _ & _ & E2 & E3).
    now apply wf_ext with st.
  - now apply wf_handle_error.
  - now apply wf_thread_finishes.
Qed.

(** C6: when the user unchecks the connect toggle, [toggle_connection]
    clears the running flag of the worker and waits for its thread, and
    only then enables the port selector and the refresh button; when it
    returns both are enabled, [self.worker] is [None], the worker no longer
    runs and no thread of any worker is running. *)
Theorem disconnect_stops_reader :
  forall (st : window),
    reachable st -> btn_checked (btn_connect st) = true ->
    let st' := exec click st in
    exists w,
      worker st = Some w /\
      calls st' = calls st ++
        [CallClearRunning w; CallWait w; CallSetText (str "Conectar");
         CallSetStyle []; CallComboEnabled true; CallRefreshEnabled true;
         CallLog (str "Desconectado.")] /\
      combo_enabled (combo_ports st') = true /\
      btn_enabled (btn_refresh st') = true /\
      btn_checked (btn_connect st') = false /\
      worker st' = None /\
      (exists o, nth_error (workers st') w = Some o /\
                 is_running o = false /\ thread o <> Running) /\
      (forall o, In o (workers st') -> thread o <> Running).
Proof.
  intros st R Hc. pose proof (reachable_wf R) as W.
  pose proof (wf_click W) as W'. destruct W as [H1 H2 H3 H4 H5 H6].
  destruct (H4 Hc) as [w Hw]. exists w. split; [assumption|].
  assert (Q : forall o, In o (workers (exec click st)) -> thread o <> Running).
  { intros o Hin Hr. apply In_nth_error in Hin. destruct Hin as [i Hi].
    pose proof (wf_running W' _ Hi Hr) as E. revert E.
    clear W' Hi. open_window st. subst. run_methods. discriminate. }
  pose proof (H5 _ Hw) as Hlt. revert Q.
  open_window st. subst. run_methods. intros Q.
  repeat split; try reflexivity.
  - now rewrite <- !app_assoc.
  - destruct (nth_error ws w) as [o|] eqn:N;
      [|apply nth_error_None in N; lia].
    eexists. rewrite !nth_error_update_nth, Nat.eqb_refl, N. cbn.
    repeat split. cbn. destruct (thread o); discriminate.
  - exact Q.
Qed.

Lemma disconnect_stops_reader_witness :
  let st := exec click (init [str "COM3"]) in
  let st' := exec click st in
  exists w,
    worker st = Some w /\
    calls st' = calls st ++
      [CallClearRunning w; CallWait w; CallSetText (str "Conectar");
       CallSetStyle []; CallComboEnabled true; CallRefreshEnabled true;
       CallLog (str "Desconectado.")] /\
    combo_enabled (combo_ports st') = true /\
    btn_enabled (btn_refresh st') = true /\
    btn_checked (btn_connect st') = false /\
    worker st' = None /\
    (exists o, nth_error (workers st') w = Some o /\
               is_running o = false /\ thread o <> Running) /\
    (forall o, In o (workers st') -> thread o <> Running).
Proof.
  apply (disconnect_stops_reader
           (reach_click (reach_init [str "COM3"]))).
  reflexivity.
Defined.

(** C7: when the connect toggle is switched on while the port selector has
    no text, no worker is created or started, the message is logged, the
    toggle is off again, and the port selector, the refresh button, the
    connect button with its text and the four cards are as before. *)
Theorem connect_without_port :
  forall (st : window),
    reachable st -> btn_checked (btn_connect st) = false ->
    combo_text (combo_ports st) = [] ->
    let st' := exec click st in
    btn_connect st' = btn_connect st /\
    btn_checked (btn_connect st') = false /\
    worker st' = worker st /\ workers st' = workers st /\
    calls st' = calls st ++
      [CallLog (str "Selecione uma porta serial!"); CallSetChecked false] /\
    log_view st' = log_view st ++ [str "Selecione uma porta serial!"] /\
    combo_ports st' = combo_ports st /\ btn_refresh st' = btn_refresh st /\
    lbl_temp st' = lbl_temp st /\ lbl_hum st' = lbl_hum st /\
    lbl_weight st' = lbl_weight st /\ lbl_heater st' = lbl_heater st.
Proof.
  intros st R Hc Hp. destruct (reachable_wf R) as [H1 H2 _ _ _ _].
  revert Hp. open_window st. subst. intros Hp. run_methods.
  fold (combo_text (Combo items idx cen)). rewrite Hp.
  repeat split. now rewrite <- app_assoc.
Qed.

Lemma connect_without_port_witness :
  let st := init [] in
  let st' := exec click st in
  btn_connect st' = btn_connect st /\
  btn_checked (btn_connect st') = false /\
  worker st' = worker st /\ workers st' = workers st /\
  calls st' = calls st ++
    [CallLog (str "Selecione uma porta serial!"); CallSetChecked false] /\
  log_view st' = log_view st ++ [str "Selecione uma porta serial!"] /\
  combo_ports st' = combo_ports st /\ btn_refresh st' = btn_refresh st /\
  lbl_temp st' = lbl_temp st /\ lbl_hum st' = lbl_hum st /\
  lbl_weight st' = lbl_weight st /\ lbl_heater st' = lbl_heater st.
Proof.
  apply (connect_without_port (reach_init [])); reflexivity.
Defined.

(** C8: while connected, an error event is a manual disconnect after one
    more log entry: [handle_error] ends in the state a click of the user
    would have produced, with the error logged before what the click logs,
    and that click is the transition that disconnects. *)
Theorem error_is_logged_disconnect :
  forall (st : window) (error_msg : text),
    reachable st -> btn_checked (btn_connect st) = true ->
    let manual := exec click st in
    let forced := exec (handle_error error_msg) st in
    exists done,
      calls manual = calls st ++ done /\
      calls forced = calls st ++ CallLog (str "ERRO: " ++ error_msg) :: done /\
      log_view manual = log_view st ++ [str "Desconectado."] /\
      log_view forced
      = log_view st ++ [str "ERRO: " ++ error_msg; str "Desconectado."] /\
      worker forced = worker manual /\ workers forced = workers manual /\
      btn_connect forced = btn_connect manual /\
      btn_refresh forced = btn_refresh manual /\
      combo_ports forced = combo_ports manual /\
      lbl_temp forced = lbl_temp manual /\ lbl_hum forced = lbl_hum manual /\
      lbl_weight forced = lbl_weight manual /\
      lbl_heater forced = lbl_heater manual /\
      btn_checked (btn_connect forced) = false /\ worker forced = None /\
      btn_text (btn_connect forced) = str "Conectar" /\
      combo_enabled (combo_ports forced) = true /\
      btn_enabled (btn_refresh forced) = true.
Proof.
  intros st msg R Hc. destruct (reachable_wf R) as [H1 H2 _ H4 _ _].
  destruct (H4 Hc) as [w Hw].
  open_window st. subst. run_methods.
  eexists. split; [now rewrite <- !app_assoc|].
  repeat split; now rewrite <- !app_assoc.
Qed.

Lemma error_is_logged_disconnect_witness :
  let st := exec click (init [str "COM3"]) in
  let manual := exec click st in
  let forced := exec (handle_error (str "device gone")) st in
  exists done,
    calls manual = calls st ++ done /\
    calls forced
    = calls st ++ CallLog (str "ERRO: " ++ str "device gone") :: done /\
    log_view manual = log_view st ++ [str "Desconectado."] /\
    log_view forced
    = log_view st ++ [str "ERRO: " ++ str "device gone"; str "Desconectado."] /\
    worker forced = worker manual /\ workers forced = workers manual /\
    btn_connect forced = btn_connect manual /\
    btn_refresh forced = btn_refresh manual /\
    combo_ports forced = combo_ports manual /\
    lbl_temp forced = lbl_temp manual /\ lbl_hum forced = lbl_hum manual /\
    lbl_weight forced = lbl_weight manual /\
    lbl_heater forced = lbl_heater manual /\
    btn_checked (btn_connect forced) = false /\ worker forced = None /\
    btn_text (btn_connect forced) = str "Conectar" /\
    combo_enabled (combo_ports forced) = true /\
    btn_enabled (btn_refresh forced) = true.
Proof.
  apply (error_is_logged_disconnect (str "device gone")
           (reach_click (reach_init [str "COM3"]))).
  reflexivity.
Defined.

End LifeCycle.

(** ** Runs of the serial worker *)

Section WorkerRuns.

Import Worker.

Lemma loop_errors ticks out :
  filter is_error (fst (loop ticks out)) = filter is_error out.
Proof.
  revert out. induction ticks as [|tk ticks IH]; intros out; [reflexivity|].
  destruct tk as [| e o | | e o | decoded]; cbn [loop fst]; auto.
  destruct (strip decoded); [apply IH|].
  rewrite IH, filter_app. cbn. apply app_nil_r.
Qed.

End WorkerRuns.

(** ** What else the pattern takes *)

Section Tolerance.

Implicit Types (r : regex) (s t h w a pre post : text) (g m : groups).
Implicit Types (k : text -> groups -> option groups) (sp : list text).

Lemma gap_blank sp i : blanks sp -> Forall (fun c => is_space c = true) (gap sp i).
Proof.
  intros B. unfold gap. revert i.
  induction B as [|x sp Hx _ IH]; intros [|i]; simpl; auto.
Qed.

Lemma stops_after_gap (p : ascii -> bool) run c0 rest :
  (forall c, p c = true -> is_space c = false) -> p c0 = false ->
  Forall (fun c => is_space c = true) run -> stops p (run ++ c0 :: rest).
Proof.
  intros D H0 [|c run' Hc _]; simpl; [assumption|].
  destruct (p c) eqn:E; [|reflexivity]. apply D in E. congruence.
Qed.

Lemma match_here_search r s m :
  match_here r s = Some m -> search r s = Some m.
Proof. intros H. destruct s; simpl; now rewrite H. Qed.

(** The search passes over text without a [T]. *)
Lemma search_skip pre s :
  Forall (fun c => Ascii.eqb "T" c = false) pre ->
  search regex_pattern (pre ++ s) = search regex_pattern s.
Proof.
  induction 1 as [|c pre Hc _ IH]; [reflexivity|].
  cbn [app search].
  replace (match_here regex_pattern (c :: pre ++ s)) with (@None groups);
    [exact IH|].
  symmetry. unfold match_here, regex_pattern.
  cbn [str list_ascii_of_string]. now apply step_chr_fail.
Qed.

Ltac gaps_side B :=
  first [ assumption
        | reflexivity
        | exact num_not_space
        | exact signed_not_space
        | apply gap_blank; exact B
        | apply fails_on_lit; reflexivity
        | apply fails_on_group_plus; exact space_not_num
        | apply fails_on_group_plus; exact space_not_signed
        | apply fails_on_heater
        | apply stops_space_num; assumption
        | apply stops_space_signed; assumption
        | apply stops_after_gap;
          [ first [exact num_not_space | exact signed_not_space]
          | reflexivity | apply gap_blank; exact B ] ].

Ltac gaps_step B :=
  first [ rewrite step_chr
        | rewrite step_lit_nil
        | rewrite step_ws by gaps_side B
        | rewrite step_field by gaps_side B ].

Lemma match_spaced_line_from g k sp t h w a post :
  blanks sp ->
  num_token t -> num_token h -> signed_token w -> heater_token a ->
  rmatch regex_pattern (spaced_line sp t h w a ++ post) g k
  = k post (four_groups t h w a ++ g).
Proof.
  intros B [Nt Ft] [Nh Fh] [Nw Fw] [-> | ->];
    unfold regex_pattern, spaced_line;
    rewrite <- ?app_assoc; cbn [str list_ascii_of_string app].
  all: repeat gaps_step B.
  all: cbn [rmatch seqs lit]; rewrite ?Ascii.eqb_refl.
  - change (consumed ("O"%char :: "N"%char :: post) post)
      with (consumed (["O"; "N"]%char ++ post) post).
    rewrite consumed_app. change (Ascii.eqb "F" "N") with false.
    unfold four_groups, set_group. cbn [app].
    now destruct (k post _).
  - change (consumed ("O"%char :: "F"%char :: "F"%char :: post) post)
      with (consumed (["O"; "F"; "F"]%char ++ post) post).
    rewrite consumed_app. change (Ascii.eqb "N" "F") with false.
    reflexivity.
Qed.

Lemma search_spaced_line sp t h w a pre post :
  blanks sp ->
  num_token t -> num_token h -> signed_token w -> heater_token a ->
  Forall (fun c => Ascii.eqb "T" c = false) pre ->
  search regex_pattern (pre ++ spaced_line sp t h w a ++ post)
  = Some (four_groups t h w a).
Proof.
  intros B Ht Hh Hw Ha Hpre. rewrite search_skip by assumption.
  apply match_here_search. unfold match_here.
  rewrite match_spaced_line_from by assumption. now rewrite app_nil_r.
Qed.

Lemma wire_line_spaced t h w a :
  wire_line t h w a = spaced_line (repeat (str " ") 12) t h w a.
Proof. reflexivity. Qed.

(** The text of a match of the pattern. *)
Lemma matches_pattern_shape mid g m :
  matches regex_pattern mid g m ->
  exists sp t h w a,
    mid = spaced_line sp t h w a /\ blanks sp /\
    m = four_groups t h w a ++ g /\
    num_token t /\ num_token h /\ signed_token w /\ heater_token a.
Proof.
  unfold regex_pattern. intros M.
  repeat match goal with
         | H : matches (seqs (_ :: _)) _ _ _ |- _ =>
             apply matches_seqs_cons_inv in H;
             destruct H as (? & ? & ? & -> & ? & H)
         end.
  apply matches_seqs_nil_inv in M. destruct M as [-> ->].
  repeat match goal with
         | H : matches (lit _) _ _ _ |- _ =>
             apply matches_lit_inv in H; destruct H as [-> ->]
         | H : matches ws _ _ _ |- _ =>
             apply matches_star_class_inv in H; destruct H as [? ->]
         end.
  repeat match goal with
         | H : matches (Group _ _) _ _ _ |- _ =>
             apply matches_group_inv in H; destruct H as (? & H & ->)
         end.
  repeat match goal with
         | H : matches (plus (Class _)) _ _ _ |- _ =>
             apply matches_plus_class_inv in H; destruct H as (? & ? & ->)
         end.
  match goal with
  | H : matches (Alt _ _) ?a ?g0 ?x |- _ =>
      assert (Ha : heater_token a /\ x = g0)
        by (apply matches_alt_inv in H; destruct H as [H|H];
            apply matches_lit_inv in H; destruct H as [-> ->];
            unfold heater_token; auto)
  end.
  destruct Ha as [Ha ->].
  match goal with
  | |- exists sp t h w a,
        str "T:" ++ ?s0 ++ ?x1 ++ ?s1 ++ _ ++ ?s2 ++ _ ++ ?s3 ++ _ ++ ?s4
        ++ ?x2 ++ ?s5 ++ _ ++ ?s6 ++ _ ++ ?s7 ++ _ ++ ?s8 ++ ?x3 ++ ?s9 ++ _
        ++ ?s10 ++ _ ++ ?s11 ++ ?x4 ++ [] = _ /\ _ =>
      exists [s0; s1; s2; s3; s4; s5; s6; s7; s8; s9; s10; s11], x1, x2, x3, x4
  end.
  split; [|split; [|split]].
  - unfold spaced_line, gap. cbn [nth]. now rewrite app_nil_r.
  - unfold blanks. repeat (apply Forall_cons; [assumption|]). constructor.
  - reflexivity.
  - unfold num_token, signed_token. auto.
Qed.


(** X1: the pattern takes a reading with any white space, or none, in each
    of the twelve places between its items, after any text without a [T]
    and before any text at all; the groups are the four tokens, and they
    are what [process_data] shows. *)
Theorem reading_found_in_any_spacing :
  forall (sp : list text) (t h w a pre post : text) (st : window),
    blanks sp ->
    num_token t -> num_token h -> signed_token w -> heater_token a ->
    Forall (fun c => Ascii.eqb "T" c = false) pre ->
    let line := pre ++ spaced_line sp t h w a ++ post in
    search regex_pattern line = Some (four_groups t h w a) /\
    display (exec (process_data line) st) = shown t h w a.
Proof.
  intros sp t h w a pre post st B Ht Hh Hw Ha Hpre line.
  assert (S : search regex_pattern line = Some (four_groups t h w a))
    by now apply search_spaced_line.
  split; [exact S | now apply display_matched].
Qed.

Lemma reading_found_in_any_spacing_witness :
  let line := str ">> T:85.0C|H:20.0%|Peso:-3|Aquecedor:OFFLINE T: 1 C" in
  search regex_pattern line
  = Some (four_groups (str "85.0") (str "20.0") (str "-3") (str "OFF")) /\
  display (exec (process_data line) (init []))
  = shown (str "85.0") (str "20.0") (str "-3") (str "OFF").
Proof.
  apply (@reading_found_in_any_spacing [] (str "85.0") (str "20.0")
           (str "-3") (str "OFF") (str ">> ") (str "LINE T: 1 C") (init [])).
  - constructor.
  - split; [discriminate | repeat constructor].
  - split; [discriminate | repeat constructor].
  - split; [discriminate | repeat constructor].
  - right; reflexivity.
  - repeat constructor.
Defined.

(** X2: whenever the pattern is found, the line holds, one after the other
    and with nothing but white space between them, [T:], a run of digits
    and dots, [C], [|], [H:], a run of digits and dots, [%], [|], [Peso:],
    a run of digits, dots and minus signs, [|], [Aquecedor:] and [ON] or
    [OFF]; the groups of the match are these four tokens. *)
Theorem match_has_the_shape :
  forall (line : text) (m : groups),
    search regex_pattern line = Some m ->
    exists pre post sp t h w a,
      line = pre ++ spaced_line sp t h w a ++ post /\ blanks sp /\
      num_token t /\ num_token h /\ signed_token w /\ heater_token a /\
      m = four_groups t h w a.
Proof.
  intros line m S. apply search_sound_groups in S.
  destruct S as (pre & mid & post & -> & M).
  apply matches_pattern_shape in M.
  destruct M as (sp & t & h & w & a & -> & B & -> & R).
  exists pre, post, sp, t, h, w, a. rewrite app_nil_r. tauto.
Qed.

Lemma match_has_the_shape_witness :
  exists pre post sp t h w a,
    padded_line = pre ++ spaced_line sp t h w a ++ post /\ blanks sp /\
    num_token t /\ num_token h /\ signed_token w /\ heater_token a /\
    four_groups (str "85.0") (str "20.0") (str "150") (str "ON")
    = four_groups t h w a.
Proof.
  apply (match_has_the_shape padded_line). reflexivity.
Defined.











End Tolerance.

(** ** The window over its events *)

Section Events.

Implicit Types (st : window) (ev : event) (w i : nat).

Ltac open_window st :=
  destruct st as [wk [items idx cen] [rt re rk rc rs] [bt be bk bc bs]
                  c1 c2 c3 c4 lg ws cs];
  cbn [worker combo_ports btn_refresh btn_connect lbl_temp lbl_hum lbl_weight
       lbl_heater log_view workers calls btn_text btn_enabled btn_checkable
       btn_checked btn_style combo_items combo_index combo_enabled] in *.

Ltac run_methods :=
  cbv [exec fire click toggle_connection handle_error bind gets modify ret
       isChecked setChecked setText setStyleSheet currentText combo_setEnabled
       refresh_setEnabled log_message worker_new on_worker connect_data
       connect_error worker_start worker_wait worker_stop record_call
       with_worker with_combo with_refresh with_connect with_log with_workers
       select_port thread_finishes combo_clear combo_addItem
       worker combo_ports btn_refresh btn_connect lbl_temp lbl_hum lbl_weight
       lbl_heater log_view workers calls btn_text btn_enabled btn_checkable
       btn_checked btn_style combo_items combo_index combo_enabled
       fst snd negb] in *.

Lemma reachable_fire ev st :
  reachable st -> allowed ev st -> reachable (exec (fire ev) st).
Proof.
  intros R A. destruct ev; cbn [fire]; cbn [allowed] in A;
    now constructor.
Qed.

(** What [refresh_ports] leaves: only the items and the current index of
    the port selector change. *)
Lemma add_ports_exec ports st :
  exec (add_ports ports) st
  = Window (worker st)
      (Combo (combo_items (combo_ports st) ++ ports)
             (match combo_index (combo_ports st), ports with
              | Some i, _ => Some i
              | None, [] => None
              | None, _ :: _ => Some 0
              end)
             (combo_enabled (combo_ports st)))
      (btn_refresh st) (btn_connect st) (lbl_temp st) (lbl_hum st)
      (lbl_weight st) (lbl_heater st) (log_view st) (workers st)
      (calls st ++ map CallComboAdd ports).
Proof.
  revert st. induction ports as [|p ports IH]; intros st.
  - open_window st. cbn. rewrite !app_nil_r. now destruct idx.
  - cbn [add_ports]. rewrite exec_bind, IH. open_window st. run_methods.
    cbn [map]. rewrite <- !app_assoc. cbn [app].
    now destruct idx.
Qed.

Lemma refresh_ports_exec ports st :
  exec (refresh_ports ports) st
  = Window (worker st)
      (Combo ports (match ports with [] => None | _ :: _ => Some 0 end)
             (combo_enabled (combo_ports st)))
      (btn_refresh st) (btn_connect st) (lbl_temp st) (lbl_hum st)
      (lbl_weight st) (lbl_heater st) (log_view st) (workers st)
      (calls st ++ CallComboClear :: map CallComboAdd ports).
Proof.
  unfold refresh_ports. rewrite exec_bind, add_ports_exec.
  open_window st. run_methods. cbn [app]. now rewrite <- app_assoc.
Qed.

Lemma process_data_exec_matched (line : text) st (t h w a : text) :
  search regex_pattern line = Some (four_groups t h w a) ->
  let st' := exec (process_data line) st in
  worker st' = worker st /\ combo_ports st' = combo_ports st /\
  btn_refresh st' = btn_refresh st /\ btn_connect st' = btn_connect st /\
  workers st' = workers st /\
  log_view st' = log_view st ++ [line] /\
  lbl_temp st' = set_label (t ++ str " " ++ deg :: str "C") (lbl_temp st) /\
  lbl_hum st' = set_label (h ++ str " %") (lbl_hum st) /\
  lbl_weight st' = set_label (w ++ str " g") (lbl_weight st) /\
  lbl_heater st'
  = Card (card_title (lbl_heater st))
         (frame_style (if text_eqb a (str "ON")
                       then color_warning else color_neutral)) a.
Proof.
  intros H. unfold process_data, exec, bind, log_message, modify.
  rewrite H. cbn [group four_groups Nat.eqb].
  destruct (text_eqb a (str "ON")); now repeat split.
Qed.

(** Everything but a line event leaves the four cards alone. *)
Lemma cards_untouched ev st :
  (forall line, ev <> EvLine line) ->
  let st' := exec (fire ev) st in
  lbl_temp st' = lbl_temp st /\ lbl_hum st' = lbl_hum st /\
  lbl_weight st' = lbl_weight st /\ lbl_heater st' = lbl_heater st.
Proof.
  intros Hev. destruct ev as [|ports|i|line|msg|w].
  - open_window st. run_methods.
    destruct be, bk, bc, wk; try destruct (combo_text _); now repeat split.
  - cbn [fire]. rewrite refresh_ports_exec. now repeat split.
  - now repeat split.
  - now contradiction (Hev line).
  - open_window st. run_methods.
    destruct be, bk, bc, wk; try destruct (combo_text _); now repeat split.
  - now repeat split.
Qed.

Lemma follows_toggle_step ev st :
  wf st -> follows_toggle st -> follows_toggle (exec (fire ev) st).
Proof.
  intros [H1 H2 H3 H4 _ _] [F1 F2 F3 F4]. destruct ev as [|ports|i|line|msg|w].
  - open_window st. subst. run_methods.
    destruct bc, wk; try destruct (combo_text _); now split.
  - cbn [fire]. rewrite refresh_ports_exec. now split.
  - open_window st. run_methods. destruct (i <? length items); now split.
  - cbn [fire]. destruct (process_data_core line st) as (_ & E1 & E2 & E3 & _).
    cbv zeta in *. split; rewrite ?E1, ?E2, ?E3; assumption.
  - open_window st. subst. run_methods.
    destruct bc, wk; try destruct (combo_text _); now split.
  - now split.
Qed.

Lemma follows_toggle_init ports : follows_toggle (init ports).
Proof. unfold init. rewrite refresh_ports_exec. now split. Qed.

Lemma reachable_follows_toggle st : reachable st -> follows_toggle st.
Proof.
  induction 1 as [ports | st R IH | st ports R IH _ | st i R IH _
                 | st line R IH | st msg R IH | st w R IH].
  - apply follows_toggle_init.
  - apply (@follows_toggle_step EvClick); auto using reachable_wf.
  - apply (@follows_toggle_step (EvRefresh ports)); auto using reachable_wf.
  - apply (@follows_toggle_step (EvSelect i)); auto using reachable_wf.
  - apply (@follows_toggle_step (EvLine line)); auto using reachable_wf.
  - apply (@follows_toggle_step (EvError msg)); auto using reachable_wf.
  - apply (@follows_toggle_step (EvFinish w)); auto using reachable_wf.
Qed.

Lemma workers_kept_ext st st' :
  worker st' = worker st -> workers st' = workers st ->
  workers_kept st -> workers_kept st'.
Proof. unfold workers_kept. intros -> ->. auto. Qed.

Lemma workers_kept_click st :
  wf st -> workers_kept st -> workers_kept (exec click st).
Proof.
  intros [H1 H2 H3 H4 H5 H6] K. unfold workers_kept in *.
  open_window st. subst be bk. destruct bc.
  - destruct (H4 eq_refl) as [w ->]. run_methods.
    intros i o. rewrite !nth_error_update_nth.
    split; [discriminate|]. intros _. revert H.
    destruct (i =? w) eqn:E.
    + apply Nat.eqb_eq in E. subst i.
      destruct (nth_error ws w) as [o'|] eqn:N; [|discriminate].
      cbn. intros [= <-].
      destruct (K _ _ N) as [L _]. destruct (L eq_refl) as (_ & T & _).
      split; cbn; [reflexivity|]. now destruct (thread o').
    + intros N. apply (K _ _ N). intros [= ->].
      now rewrite Nat.eqb_refl in E.
  - rewrite (H3 eq_refl) in *. run_methods.
    destruct (combo_text _) as [|c port]; [exact K|].
    intros i o. rewrite !nth_error_update_nth.
    destruct (i =? length ws) eqn:E.
    + apply Nat.eqb_eq in E. subst i.
      rewrite nth_error_app2, Nat.sub_diag by lia. cbn.
      intros [= <-]. split; [|congruence]. intros _.
      repeat split; cbn; discriminate || reflexivity.
    + intros N. apply Nat.eqb_neq in E. split; [congruence|]. intros _.
      destruct (Nat.lt_ge_cases i (length ws)) as [Hlt | Hge].
      * rewrite nth_error_app1 in N by assumption.
        apply (K _ _ N). discriminate.
      * assert (Hnone : nth_error (ws ++ [new_worker (c :: port)]) i = None)
          by (apply nth_error_None; rewrite length_app; simpl; lia).
        congruence.
Qed.

Lemma workers_kept_step ev st :
  wf st -> workers_kept st -> workers_kept (exec (fire ev) st).
Proof.
  intros W K. destruct ev as [|ports|i|line|msg|w]; cbn [fire].
  - now apply workers_kept_click.
  - rewrite refresh_ports_exec. now apply workers_kept_ext with st.
  - now apply workers_kept_ext with st.
  - destruct (process_data_core line st) as (E1 & _ & _ & _ & E2).
    now apply workers_kept_ext with st.
  - unfold handle_error. rewrite exec_bind.
    apply workers_kept_click; [now apply wf_log|].
    now apply workers_kept_ext with st.
  - unfold workers_kept in *. open_window st. run_methods.
    intros i o. rewrite nth_error_update_nth.
    destruct (i =? w); [|now apply K].
    destruct (nth_error ws i) as [o'|] eqn:N; [|discriminate].
    cbn. intros [= <-]. destruct (K _ _ N) as [L S]. split.
    + intros E. destruct (L E) as (A & B & C & D & F).
      repeat split; cbn; auto. now destruct (thread o').
    + intros E. destruct (S E) as (A & B). split; cbn; auto. now rewrite B.
Qed.

Lemma reachable_workers_kept st : reachable st -> workers_kept st.
Proof.
  induction 1 as [ports | st R IH | st ports R IH _ | st i R IH _
                 | st line R IH | st msg R IH | st w R IH].
  - unfold init. rewrite refresh_ports_exec. intros [|i] o; discriminate.
  - apply (@workers_kept_step EvClick); auto using reachable_wf.
  - apply (@workers_kept_step (EvRefresh ports)); auto using reachable_wf.
  - apply (@workers_kept_step (EvSelect i)); auto using reachable_wf.
  - apply (@workers_kept_step (EvLine line)); auto using reachable_wf.
  - apply (@workers_kept_step (EvError msg)); auto using reachable_wf.
  - apply (@workers_kept_step (EvFinish w)); auto using reachable_wf.
Qed.

Lemma cards_kept_ext st st' :
  lbl_temp st' = lbl_temp st -> lbl_hum st' = lbl_hum st ->
  lbl_weight st' = lbl_weight st -> lbl_heater st' = lbl_heater st ->
  cards_kept st -> cards_kept st'.
Proof. intros E1 E2 E3 E4 [A B C D]. split; rewrite ?E1, ?E2, ?E3, ?E4; auto. Qed.

Lemma cards_kept_line (line : text) st :
  cards_kept st -> cards_kept (exec (process_data line) st).
Proof.
  intros C. destruct (search regex_pattern line) as [m|] eqn:S.
  - destruct (search_groups _ S) as (t & h & w & a & -> & _ & _ & _ & Ha).
    destruct (@process_data_exec_matched line st t h w a S)
      as (_ & _ & _ & _ & _ & _ & E1 & E2 & E3 & E4).
    destruct C as [(A1 & A2 & _) (B1 & B2 & _) (C1 & C2 & _) (D1 & _)].
    split; rewrite ?E1, ?E2, ?E3, ?E4; cbn; eauto.
  - rewrite process_data_unmatched by assumption.
    now apply cards_kept_ext with st.
Qed.

Lemma reachable_cards_kept st : reachable st -> cards_kept st.
Proof.
  induction 1 as [ports | st R IH | st ports R IH _ | st i R IH _
                 | st line R IH | st msg R IH | st w R IH].
  - unfold init. rewrite refresh_ports_exec.
    split; cbn [lbl_temp lbl_hum lbl_weight lbl_heater setup_ui create_card
                card_title card_frame card_label].
    + repeat split. now exists (str "---").
    + repeat split. now exists (str "---").
    + repeat split. now exists (str "---").
    + split; [reflexivity|]. split; [now right | reflexivity].
  - destruct (@cards_untouched EvClick st) as (E1 & E2 & E3 & E4);
      [discriminate|]. now apply cards_kept_ext with st.
  - destruct (@cards_untouched (EvRefresh ports) st) as (E1 & E2 & E3 & E4);
      [discriminate|]. now apply cards_kept_ext with st.
  - destruct (@cards_untouched (EvSelect i) st) as (E1 & E2 & E3 & E4);
      [discriminate|]. now apply cards_kept_ext with st.
  - now apply cards_kept_line.
  - destruct (@cards_untouched (EvError msg) st) as (E1 & E2 & E3 & E4);
      [discriminate|]. now apply cards_kept_ext with st.
  - destruct (@cards_untouched (EvFinish w) st) as (E1 & E2 & E3 & E4);
      [discriminate|]. now apply cards_kept_ext with st.
Qed.

Lemma update_nth_last {A : Type} (f : A -> A) (l : list A) (x : A) :
  update_nth (length l) f (l ++ [x]) = l ++ [f x].
Proof. induction l as [|y l IH]; simpl; [reflexivity | now rewrite IH]. Qed.

(** X3: in every state the window reaches, the port selector and the
    refresh button are enabled exactly while the connect button is
    unchecked, the button reads [Conectar] then and [Desconectar] while
    checked, with the matching style sheet, and it is checked exactly
    while [self.worker] refers to a worker. *)
Theorem controls_follow_the_toggle :
  forall (st : window),
    reachable st ->
    let on := btn_checked (btn_connect st) in
    combo_enabled (combo_ports st) = negb on /\
    btn_enabled (btn_refresh st) = negb on /\
    btn_text (btn_connect st)
    = (if on then str "Desconectar" else str "Conectar") /\
    btn_style (btn_connect st)
    = (if on then str "background-color: #ffcccc; color: red;" else []) /\
    btn_enabled (btn_connect st) = true /\
    (on = true <-> exists w, worker st = Some w).
Proof.
  intros st R on. destruct (reachable_follows_toggle R) as [F1 F2 F3 F4].
  destruct (reachable_wf R) as [H1 H2 H3 H4 _ _].
  repeat split; auto.
  intros [w Hw]. subst on. destruct (btn_checked (btn_connect st)); auto.
  rewrite H3 in Hw; [discriminate | reflexivity].
Qed.

Lemma controls_follow_the_toggle_witness :
  let st := exec click (init [str "COM3"]) in
  let on := btn_checked (btn_connect st) in
  combo_enabled (combo_ports st) = negb on /\
  btn_enabled (btn_refresh st) = negb on /\
  btn_text (btn_connect st)
  = (if on then str "Desconectar" else str "Conectar") /\
  btn_style (btn_connect st)
  = (if on then str "background-color: #ffcccc; color: red;" else []) /\
  btn_enabled (btn_connect st) = true /\
  (on = true <-> exists w, worker st = Some w).
Proof.
  apply (controls_follow_the_toggle (reach_click (reach_init [str "COM3"]))).
Defined.

(** X4: in every state the window reaches, the worker [self.worker] refers
    to has its running flag set, a started thread, the baud rate 115200
    and its two signals connected to [process_data] and [handle_error];
    every other worker the window ever created has the flag cleared and a
    finished thread; so at most one thread is running. *)
Theorem one_live_worker :
  forall (st : window),
    reachable st ->
    (forall w, worker st = Some w ->
               exists o, nth_error (workers st) w = Some o /\ live o) /\
    (forall i o, nth_error (workers st) i = Some o ->
                 worker st <> Some i -> stopped o) /\
    (forall i j oi oj,
       nth_error (workers st) i = Some oi ->
       nth_error (workers st) j = Some oj ->
       thread oi = Running -> thread oj = Running -> i = j).
Proof.
  intros st R. pose proof (reachable_workers_kept R) as K.
  destruct (reachable_wf R) as [_ _ _ _ H5 H6]. split; [|split].
  - intros w Hw. destruct (nth_error (workers st) w) as [o|] eqn:N.
    + exists o. split; [reflexivity|]. now apply (K _ _ N).
    + apply nth_error_None in N. apply H5 in Hw. lia.
  - intros i o N. now apply (K _ _ N).
  - intros i j oi oj Ni Nj Ti Tj.
    pose proof (H6 _ _ Ni Ti) as Ei. pose proof (H6 _ _ Nj Tj) as Ej.
    congruence.
Qed.

Lemma one_live_worker_witness :
  let st := exec click (exec click (exec click (init [str "COM3"]))) in
  (forall w, worker st = Some w ->
             exists o, nth_error (workers st) w = Some o /\ live o) /\
  (forall i o, nth_error (workers st) i = Some o ->
               worker st <> Some i -> stopped o) /\
  (forall i j oi oj,
     nth_error (workers st) i = Some oi ->
     nth_error (workers st) j = Some oj ->
     thread oi = Running -> thread oj = Running -> i = j).
Proof.
  apply (one_live_worker
           (reach_click (reach_click (reach_click (reach_init [str "COM3"]))))).
Defined.

(** X5: in every state the window reaches, the heater card reads [ON] or
    [OFF] and has the warning colour exactly when it reads [ON]; the other
    three cards keep their colours, every card keeps its title, and the
    three values end in their units. *)
Theorem cards_stay_consistent :
  forall (st : window),
    reachable st ->
    heater_token (card_label (lbl_heater st)) /\
    card_frame (lbl_heater st)
    = (if text_eqb (card_label (lbl_heater st)) (str "ON")
       then str "QFrame { background-color: #F44336; border-radius: 10px; }"
       else str "QFrame { background-color: #9E9E9E; border-radius: 10px; }") /\
    (exists v, card_label (lbl_temp st) = v ++ str " " ++ deg :: str "C") /\
    (exists v, card_label (lbl_hum st) = v ++ str " %") /\
    (exists v, card_label (lbl_weight st) = v ++ str " g") /\
    card_frame (lbl_temp st)
    = str "QFrame { background-color: #FF5722; border-radius: 10px; }" /\
    card_frame (lbl_hum st)
    = str "QFrame { background-color: #2196F3; border-radius: 10px; }" /\
    card_frame (lbl_weight st)
    = str "QFrame { background-color: #4CAF50; border-radius: 10px; }" /\
    map card_title [lbl_temp st; lbl_hum st; lbl_weight st; lbl_heater st]
    = [str "Temperatura"; str "Umidade"; str "Peso"; str "Aquecedor"].
Proof.
  intros st R.
  destruct (reachable_cards_kept R)
    as [(A1 & A2 & A3) (B1 & B2 & B3) (C1 & C2 & C3) (D1 & D2 & D3)].
  repeat split; auto.
  - rewrite D3. now destruct (text_eqb _ _).
  - cbn [map]. now rewrite A1, B1, C1, D1.
Qed.

Lemma cards_stay_consistent_witness :
  let st := exec (process_data example_line) (init []) in
  heater_token (card_label (lbl_heater st)) /\
  card_frame (lbl_heater st)
  = (if text_eqb (card_label (lbl_heater st)) (str "ON")
     then str "QFrame { background-color: #F44336; border-radius: 10px; }"
     else str "QFrame { background-color: #9E9E9E; border-radius: 10px; }") /\
  (exists v, card_label (lbl_temp st) = v ++ str " " ++ deg :: str "C") /\
  (exists v, card_label (lbl_hum st) = v ++ str " %") /\
  (exists v, card_label (lbl_weight st) = v ++ str " g") /\
  card_frame (lbl_temp st)
  = str "QFrame { background-color: #FF5722; border-radius: 10px; }" /\
  card_frame (lbl_hum st)
  = str "QFrame { background-color: #2196F3; border-radius: 10px; }" /\
  card_frame (lbl_weight st)
  = str "QFrame { background-color: #4CAF50; border-radius: 10px; }" /\
  map card_title [lbl_temp st; lbl_hum st; lbl_weight st; lbl_heater st]
  = [str "Temperatura"; str "Umidade"; str "Peso"; str "Aquecedor"].
Proof.
  apply (cards_stay_consistent (reach_line example_line (reach_init []))).
Defined.

(** X6: only a line event changes what the cards show: a click on the
    connect button, a refresh, a choice of port, an error event and the
    end of a thread leave the four cards as they are, so the last reading
    stays on the dashboard after a disconnect. *)
Theorem only_lines_change_the_cards :
  forall (ev : event) (st : window),
    (forall line, ev <> EvLine line) ->
    let st' := exec (fire ev) st in
    lbl_temp st' = lbl_temp st /\ lbl_hum st' = lbl_hum st /\
    lbl_weight st' = lbl_weight st /\ lbl_heater st' = lbl_heater st /\
    display st' = display st.
Proof.
  intros ev st Hev st'.
  destruct (cards_untouched st Hev) as (E1 & E2 & E3 & E4).
  fold st' in E1, E2, E3, E4. unfold display.
  now rewrite E1, E2, E3, E4.
Qed.

Lemma only_lines_change_the_cards_witness :
  let st := exec click (exec (process_data example_line) (init [str "COM3"])) in
  let st' := exec (fire EvClick) st in
  lbl_temp st' = lbl_temp st /\ lbl_hum st' = lbl_hum st /\
  lbl_weight st' = lbl_weight st /\ lbl_heater st' = lbl_heater st /\
  display st' = display st.
Proof.
  apply (@only_lines_change_the_cards EvClick). discriminate.
Defined.

(** The connect branch of [toggle_connection], from an unchecked button. *)
Lemma click_connects st (port : text) :
  wf st -> btn_checked (btn_connect st) = false ->
  combo_text (combo_ports st) = port -> port <> [] ->
  exec click st
  = Window (Some (length (workers st)))
      (Combo (combo_items (combo_ports st)) (combo_index (combo_ports st)) false)
      (Button (btn_text (btn_refresh st)) false (btn_checkable (btn_refresh st))
              (btn_checked (btn_refresh st)) (btn_style (btn_refresh st)))
      (Button (str "Desconectar") true true true
              (str "background-color: #ffcccc; color: red;"))
      (lbl_temp st) (lbl_hum st) (lbl_weight st) (lbl_heater st)
      (log_view st ++ [str "Conectando a " ++ port ++ str "..."])
      (workers st ++
       [SerialWorker port 115200%Z true Running
                     [SlotProcessData] [SlotHandleError]])
      (calls st ++
       [CallNewWorker (length (workers st)) port;
        CallConnectData (length (workers st));
        CallConnectError (length (workers st));
        CallStart (length (workers st));
        CallSetText (str "Desconectar");
        CallSetStyle (str "background-color: #ffcccc; color: red;");
        CallComboEnabled false; CallRefreshEnabled false;
        CallLog (str "Conectando a " ++ port ++ str "...")]).
Proof.
  intros [H1 H2 _ _ _ _] Hc Hp Hne. revert Hp.
  open_window st. subst be bk bc. intros Hp. run_methods.
  fold (combo_text (Combo items idx cen)). rewrite Hp.
  destruct port as [|c port]; [congruence|].
  rewrite <- !app_assoc. cbn [app].
  do 2 rewrite update_nth_last. cbn.
  rewrite update_nth_last. reflexivity.
Qed.

(** The disconnect branch, from a checked button. *)
Lemma click_disconnects st w :
  wf st -> btn_checked (btn_connect st) = true -> worker st = Some w ->
  exec click st
  = Window None
      (Combo (combo_items (combo_ports st)) (combo_index (combo_ports st)) true)
      (Button (btn_text (btn_refresh st)) true (btn_checkable (btn_refresh st))
              (btn_checked (btn_refresh st)) (btn_style (btn_refresh st)))
      (Button (str "Conectar") true true false [])
      (lbl_temp st) (lbl_hum st) (lbl_weight st) (lbl_heater st)
      (log_view st ++ [str "Desconectado."])
      (update_nth w (fun o =>
         SerialWorker (port_name o) (baud_rate o) false
                      (match thread o with Running => Finished | t => t end)
                      (data_received o) (error_occurred o)) (workers st))
      (calls st ++
       [CallClearRunning w; CallWait w; CallSetText (str "Conectar");
        CallSetStyle []; CallComboEnabled true; CallRefreshEnabled true;
        CallLog (str "Desconectado.")]).
Proof.
  intros [H1 H2 _ _ _ _] Hc Hw.
  open_window st. subst. run_methods.
  rewrite <- !app_assoc. cbn [app]. f_equal.
  clear. revert w. induction ws as [|o ws IH]; intros [|w]; cbn; auto.
  now rewrite IH.
Qed.

(** X8: a click on the unchecked connect button with a port selected
    creates one new worker for that port at 115200 baud, connects its two
    signals, starts its thread, makes it [self.worker], turns the button
    into [Desconectar], disables the port selector and the refresh button
    and logs the attempt; the cards and the earlier workers are as
    before. *)
Theorem connect_starts_one_worker :
  forall (st : window) (port : text),
    reachable st -> btn_checked (btn_connect st) = false ->
    combo_text (combo_ports st) = port -> port <> [] ->
    let st' := exec click st in
    worker st' = Some (length (workers st)) /\
    workers st'
    = workers st ++ [SerialWorker port 115200%Z true Running
                                  [SlotProcessData] [SlotHandleError]] /\
    btn_connect st'
    = Button (str "Desconectar") true true true
             (str "background-color: #ffcccc; color: red;") /\
    combo_enabled (combo_ports st') = false /\
    combo_text (combo_ports st') = port /\
    btn_enabled (btn_refresh st') = false /\
    log_view st' = log_view st ++ [str "Conectando a " ++ port ++ str "..."] /\
    display st' = display st /\
    calls st'
    = calls st ++
      [CallNewWorker (length (workers st)) port;
       CallConnectData (length (workers st));
       CallConnectError (length (workers st));
       CallStart (length (workers st));
       CallSetText (str "Desconectar");
       CallSetStyle (str "background-color: #ffcccc; color: red;");
       CallComboEnabled false; CallRefreshEnabled false;
       CallLog (str "Conectando a " ++ port ++ str "...")].
Proof.
  intros st port R Hc Hp Hne st'. subst st'.
  rewrite (click_connects (reachable_wf R) Hc Hp Hne).
  repeat split. exact Hp.
Qed.

Lemma connect_starts_one_worker_witness :
  let st := init [str "COM3"; str "COM7"] in
  let st' := exec click st in
  worker st' = Some (length (workers st)) /\
  workers st'
  = workers st ++ [SerialWorker (str "COM3") 115200%Z true Running
                                [SlotProcessData] [SlotHandleError]] /\
  btn_connect st'
  = Button (str "Desconectar") true true true
           (str "background-color: #ffcccc; color: red;") /\
  combo_enabled (combo_ports st') = false /\
  combo_text (combo_ports st') = str "COM3" /\
  btn_enabled (btn_refresh st') = false /\
  log_view st' = log_view st ++ [str "Conectando a " ++ str "COM3" ++ str "..."] /\
  display st' = display st /\
  calls st'
  = calls st ++
    [CallNewWorker (length (workers st)) (str "COM3");
     CallConnectData (length (workers st));
     CallConnectError (length (workers st));
     CallStart (length (workers st));
     CallSetText (str "Desconectar");
     CallSetStyle (str "background-color: #ffcccc; color: red;");
     CallComboEnabled false; CallRefreshEnabled false;
     CallLog (str "Conectando a " ++ str "COM3" ++ str "...")].
Proof.
  apply (@connect_starts_one_worker (init [str "COM3"; str "COM7"]) (str "COM3")
           (reach_init [str "COM3"; str "COM7"])).
  - reflexivity.
  - reflexivity.
  - discriminate.
Defined.

(** X9: connecting and disconnecting again brings the window back: the
    port selector with its choice, the two buttons and the four cards are
    as before, [self.worker] is [None] again; what remains is one stopped
    worker more and the two log entries. *)
Theorem connect_then_disconnect_restores :
  forall (st : window) (port : text),
    reachable st -> btn_checked (btn_connect st) = false ->
    combo_text (combo_ports st) = port -> port <> [] ->
    let st' := exec click (exec click st) in
    combo_ports st' = combo_ports st /\ btn_refresh st' = btn_refresh st /\
    btn_connect st' = btn_connect st /\ worker st' = worker st /\
    lbl_temp st' = lbl_temp st /\ lbl_hum st' = lbl_hum st /\
    lbl_weight st' = lbl_weight st /\ lbl_heater st' = lbl_heater st /\
    log_view st'
    = log_view st ++ [str "Conectando a " ++ port ++ str "...";
                      str "Desconectado."] /\
    workers st'
    = workers st ++ [SerialWorker port 115200%Z false Finished
                                  [SlotProcessData] [SlotHandleError]].
Proof.
  intros st port R Hc Hp Hne st'. subst st'.
  pose proof (reachable_wf R) as W.
  destruct (reachable_follows_toggle R) as [F1 F2 F3 F4].
  destruct W as [H1 H2 H3 H4 H5 H6].
  pose proof (H3 Hc) as Hw.
  assert (W1 : wf (exec click st))
    by (apply wf_click; now split).
  rewrite (@click_disconnects (exec click st) (length (workers st)) W1);
    rewrite (@click_connects st port (WF _ H1 H2 H3 H4 H5 H6) Hc Hp Hne);
    try reflexivity.
  rewrite Hc in *. cbn [negb] in *.
  open_window st. subst. cbn.
  rewrite <- !app_assoc. cbn [app]. rewrite update_nth_last.
  now repeat split.
Qed.

Lemma connect_then_disconnect_restores_witness :
  let st := exec (process_data example_line) (init [str "COM3"]) in
  let st' := exec click (exec click st) in
  combo_ports st' = combo_ports st /\ btn_refresh st' = btn_refresh st /\
  btn_connect st' = btn_connect st /\ worker st' = worker st /\
  lbl_temp st' = lbl_temp st /\ lbl_hum st' = lbl_hum st /\
  lbl_weight st' = lbl_weight st /\ lbl_heater st' = lbl_heater st /\
  log_view st'
  = log_view st ++ [str "Conectando a " ++ str "COM3" ++ str "...";
                    str "Desconectado."] /\
  workers st'
  = workers st ++ [SerialWorker (str "COM3") 115200%Z false Finished
                                [SlotProcessData] [SlotHandleError]].
Proof.
  apply (@connect_then_disconnect_restores
           (exec (process_data example_line) (init [str "COM3"])) (str "COM3")
           (reach_line example_line (reach_init [str "COM3"]))).
  - reflexivity.
  - reflexivity.
  - discriminate.
Defined.

(** X10: [handle_error] disconnects only when the button is checked.  An
    error event that arrives while the button is unchecked clicks it on:
    with a port selected a new worker is started for it, with none the
    click is refused; the error is logged first either way. *)
Theorem late_error_clicks_the_button_on :
  forall (st : window) (error_msg port : text),
    reachable st -> btn_checked (btn_connect st) = false ->
    combo_text (combo_ports st) = port ->
    let st' := exec (handle_error error_msg) st in
    (port <> [] ->
     btn_checked (btn_connect st') = true /\
     worker st' = Some (length (workers st)) /\
     workers st'
     = workers st ++ [SerialWorker port 115200%Z true Running
                                   [SlotProcessData] [SlotHandleError]] /\
     log_view st'
     = log_view st ++ [str "ERRO: " ++ error_msg;
                       str "Conectando a " ++ port ++ str "..."]) /\
    (port = [] ->
     btn_checked (btn_connect st') = false /\
     worker st' = None /\ workers st' = workers st /\
     log_view st'
     = log_view st ++ [str "ERRO: " ++ error_msg;
                       str "Selecione uma porta serial!"]).
Proof.
  intros st msg port R Hc Hp st'. subst st'.
  pose proof (reachable_wf R) as W.
  unfold handle_error. rewrite exec_bind.
  set (st1 := snd (log_message (str "ERRO: " ++ msg) st)).
  assert (W1 : wf st1) by now apply (wf_log (str "ERRO: " ++ msg)).
  split.
  - intros Hne. rewrite (@click_connects st1 port W1 Hc Hp Hne).
    subst st1. cbn. rewrite <- app_assoc. now repeat split.
  - intros ->. destruct W as [H1 H2 H3 _ _ _]. pose proof (H3 Hc) as Hw.
    subst st1. revert Hp. open_window st. subst. intros Hp. run_methods.
    fold (combo_text (Combo items idx cen)). rewrite Hp.
    rewrite <- app_assoc. now repeat split.
Qed.

Lemma late_error_clicks_the_button_on_witness :
  let st := exec click (exec click (init [str "COM3"])) in
  let st' := exec (handle_error (str "device gone")) st in
  btn_checked (btn_connect st) = false /\
  btn_checked (btn_connect st') = true /\
  worker st' = Some (length (workers st)) /\
  workers st'
  = workers st ++ [SerialWorker (str "COM3") 115200%Z true Running
                                [SlotProcessData] [SlotHandleError]] /\
  log_view st'
  = log_view st ++ [str "ERRO: " ++ str "device gone";
                    str "Conectando a " ++ str "COM3" ++ str "..."].
Proof.
  split; [reflexivity|].
  apply (proj1 (@late_error_clicks_the_button_on
                  (exec click (exec click (init [str "COM3"])))
                  (str "device gone") (str "COM3")
                  (reach_click (reach_click (reach_init [str "COM3"])))
                  eq_refl eq_refl)).
  discriminate.
Defined.

(** X11: [refresh_ports] replaces the items of the port selector by the
    ports listed, in their order; the first one becomes the current text,
    and the text is empty when no port is listed; nothing else of the
    window changes. *)
Theorem refresh_lists_the_ports :
  forall (ports : list text) (st : window),
    let st' := exec (refresh_ports ports) st in
    combo_items (combo_ports st') = ports /\
    combo_text (combo_ports st') = hd [] ports /\
    combo_enabled (combo_ports st') = combo_enabled (combo_ports st) /\
    worker st' = worker st /\ workers st' = workers st /\
    btn_refresh st' = btn_refresh st /\ btn_connect st' = btn_connect st /\
    log_view st' = log_view st /\
    lbl_temp st' = lbl_temp st /\ lbl_hum st' = lbl_hum st /\
    lbl_weight st' = lbl_weight st /\ lbl_heater st' = lbl_heater st /\
    calls st' = calls st ++ CallComboClear :: map CallComboAdd ports.
Proof.
  intros ports st st'. subst st'. rewrite refresh_ports_exec.
  repeat split. now destruct ports.
Qed.



End Events.

(** ** What the worker sends *)

Section WorkerSignals.

Import Worker.

Implicit Types (s line : text) (ticks : list tick) (out : list signal).

Lemma lstrip_split s :
  exists pre, s = pre ++ lstrip s /\ blank pre /\ stops is_space (lstrip s).
Proof.
  induction s as [|c s (pre & E & B & S)].
  - exists []. repeat split. constructor.
  - cbn [lstrip]. destruct (is_space c) eqn:C.
    + exists (c :: pre). repeat split; [now rewrite E at 1 | now constructor | assumption].
    + exists []. repeat split; [constructor | assumption].
Qed.

Lemma lstrip_stops s : stops is_space s -> lstrip s = s.
Proof. destruct s as [|c s]; cbn; [reflexivity|]. now intros ->. Qed.

Lemma blank_rev s : blank s -> blank (rev s).
Proof. apply Forall_rev. Qed.

Lemma rstrip_split s :
  exists post,
    s = rstrip s ++ post /\ blank post /\ stops is_space (rev (rstrip s)).
Proof.
  unfold rstrip. destruct (lstrip_split (rev s)) as (pre & E & B & S).
  exists (rev pre). repeat split.
  - rewrite <- rev_app_distr, <- E. now rewrite rev_involutive.
  - now apply blank_rev.
  - now rewrite rev_involutive.
Qed.

Lemma stops_prefix (p : ascii -> bool) s x post :
  s = x ++ post -> stops p s -> x <> [] -> stops p x.
Proof.
  intros -> S Hne. destruct x as [|c x]; [congruence | exact S].
Qed.

(** [strip] takes white space away, at the two ends only. *)
Lemma strip_split s :
  exists pre post,
    s = pre ++ strip s ++ post /\ blank pre /\ blank post /\
    stops is_space (strip s) /\ stops is_space (rev (strip s)).
Proof.
  destruct (lstrip_split s) as (pre & E1 & B1 & S1).
  destruct (rstrip_split (lstrip s)) as (post & E2 & B2 & S2).
  exists pre, post. unfold strip. repeat split; auto.
  - now rewrite <- E2.
  - destruct (rstrip (lstrip s)) as [|c x] eqn:X; [exact I|].
    rewrite <- X. apply stops_prefix with (lstrip s) post; auto.
    + now rewrite X.
    + rewrite X. discriminate.
Qed.

Lemma strip_idempotent s : strip (strip s) = strip s.
Proof.
  destruct (strip_split s) as (_ & _ & _ & _ & _ & S1 & S2).
  unfold strip at 1. rewrite (lstrip_stops _ S1).
  unfold rstrip. rewrite (lstrip_stops _ S2). apply rev_involutive.
Qed.

(** What the loop adds to the signals: the stripped text of reads, never
    an empty one, never an error. *)
Lemma loop_data ticks out :
  exists data,
    fst (loop ticks out) = out ++ map DataReceived data /\
    Forall (fun line =>
              line <> [] /\
              exists decoded, In (Line decoded) ticks /\ line = strip decoded)
           data.
Proof.
  revert out. induction ticks as [|tk ticks IH]; intros out.
  - exists []. split; [now rewrite app_nil_r | constructor].
  - assert (Weak : forall data,
      Forall (fun line => line <> [] /\
                exists decoded, In (Line decoded) ticks /\ line = strip decoded)
             data ->
      Forall (fun line => line <> [] /\
                exists decoded, In (Line decoded) (tk :: ticks) /\
                                line = strip decoded) data).
    { intros data. apply Forall_impl. intros line (Hne & d & Hin & E).
      split; [assumption|]. exists d. split; [now right | assumption]. }
    destruct tk as [| e o | | e o | decoded]; cbn [loop fst];
      try (exists []; split; [now rewrite app_nil_r | constructor]).
    + destruct (IH out) as (data & E & F). exists data. auto.
    + destruct (strip decoded) as [|c x] eqn:X.
      * destruct (IH out) as (data & E & F). exists data. auto.
      * destruct (IH (out ++ [DataReceived (c :: x)])) as (data & E & F).
        exists ((c :: x) :: data). split.
        -- rewrite E, <- app_assoc. reflexivity.
        -- constructor; [|now apply Weak]. split; [discriminate|].
           exists decoded. split; [now left | now rewrite X].
Qed.

(** X13: every line the worker sends to the window is the decoded text of
    one read with the white space taken away at its two ends and nowhere
    else: it is not empty and neither begins nor ends with white space; a
    read of white space only sends nothing. *)
Theorem data_lines_are_stripped :
  forall (port : text) (o : opening) (ticks : list tick) (line : text),
    In (DataReceived line) (emitted (run port o ticks)) ->
    line <> [] /\ stops is_space line /\ stops is_space (rev line) /\
    exists decoded pre post,
      In (Line decoded) ticks /\ decoded = pre ++ line ++ post /\
      blank pre /\ blank post.
Proof.
  intros port o ticks line Hin.
  assert (Hout : In (DataReceived line) (fst (loop ticks []))).
  { destruct o as [|e]; cbn [run] in Hin.
    - destruct (loop ticks []) as [out [| e still |]]; cbn [emitted fst] in *;
        auto.
      apply in_app_or in Hin. destruct Hin as [Hin | [Hin | []]];
        [assumption | discriminate].
    - cbn in Hin. destruct Hin as [Hin | []]. discriminate. }
  destruct (loop_data ticks []) as (data & E & F).
  rewrite E in Hout. cbn [app] in Hout. apply in_map_iff in Hout.
  destruct Hout as (l & [= ->] & Hl).
  rewrite Forall_forall in F. destruct (F _ Hl) as (Hne & decoded & Hd & ->).
  destruct (strip_split decoded) as (pre & post & E' & B1 & B2 & S1 & S2).
  repeat split; auto. exists decoded, pre, post. auto.
Qed.

Lemma data_lines_are_stripped_witness :
  let ticks := [Line (str "   "); NothingWaiting;
                Line (str "  T: 1 C  "); StopRequested] in
  emitted (run (str "COM3") Opened ticks) = [DataReceived (str "T: 1 C")] /\
  (str "T: 1 C" <> [] /\ stops is_space (str "T: 1 C") /\
   stops is_space (rev (str "T: 1 C")) /\
   exists decoded pre post,
     In (Line decoded) ticks /\ decoded = pre ++ str "T: 1 C" ++ post /\
     blank pre /\ blank post).
Proof.
  split; [reflexivity|].
  apply (@data_lines_are_stripped (str "COM3") Opened
           [Line (str "   "); NothingWaiting;
            Line (str "  T: 1 C  "); StopRequested]).
  left. reflexivity.
Defined.

Lemma loop_live_app pre rest out :
  forallb (fun tk => negb (ends_loop tk)) pre = true ->
  loop (pre ++ rest) out = loop rest (fst (loop pre out)) /\
  snd (loop pre out) = Turning.
Proof.
  revert out. induction pre as [|tk pre IH]; intros out H; [now split|].
  cbn [forallb] in H. apply andb_true_iff in H. destruct H as [Htk H].
  destruct tk as [| e o | | e o | decoded]; try discriminate;
    cbn [app loop].
  - now apply IH.
  - destruct (strip decoded); now apply IH.
Qed.

Lemma loop_ends tk rest out :
  ends_loop tk = true ->
  loop (tk :: rest) out = loop [tk] out /\ snd (loop [tk] out) <> Turning.
Proof.
  destruct tk as [| e o | | e o | decoded]; try discriminate; intros _;
    now split.
Qed.

Lemma loop_turning ticks out :
  snd (loop ticks out) = Turning <->
  forallb (fun tk => negb (ends_loop tk)) ticks = true.
Proof.
  revert out. induction ticks as [|tk ticks IH]; intros out; [now split|].
  destruct tk as [| e o | | e o | decoded]; cbn [loop forallb ends_loop negb andb snd];
    try (split; discriminate).
  - apply IH.
  - destruct (strip decoded); apply IH.
Qed.

Lemma how_looping port ticks :
  how (run port Opened ticks) = Looping <-> snd (loop ticks []) = Turning.
Proof.
  cbn [run]. destruct (loop ticks []) as [out [| e still |]]; cbn;
    split; congruence.
Qed.

(** X14: the worker loops until the first stop request or exception and
    not beyond: what the port would answer after it plays no part; the run
    is still looping exactly when neither has come; and while it loops,
    more answers only add signals after those already sent. *)
Theorem run_ends_at_first_stop_or_failure :
  forall (port : text) (pre rest : list tick),
    forallb (fun tk => negb (ends_loop tk)) pre = true ->
    (forall tk, ends_loop tk = true ->
       run port Opened (pre ++ tk :: rest) = run port Opened (pre ++ [tk]) /\
       how (run port Opened (pre ++ tk :: rest)) <> Looping) /\
    how (run port Opened pre) = Looping /\
    (exists extra,
       emitted (run port Opened (pre ++ rest))
       = emitted (run port Opened pre) ++ extra) /\
    (how (run port Opened (pre ++ rest)) = Looping <->
     forallb (fun tk => negb (ends_loop tk)) rest = true).
Proof.
  intros port pre rest Hpre.
  destruct (loop_live_app pre [] [] Hpre) as [_ Tpre].
  split; [|split; [|split]].
  - intros tk Htk.
    destruct (loop_live_app pre (tk :: rest) [] Hpre) as [E1 _].
    destruct (loop_live_app pre [tk] [] Hpre) as [E2 _].
    destruct (@loop_ends tk rest (fst (loop pre [])) Htk) as [E3 N].
    assert (E : loop (pre ++ tk :: rest) [] = loop (pre ++ [tk]) [])
      by congruence.
    cbn [run]. rewrite E. split; [reflexivity|].
    rewrite E2. destruct (loop [tk] (fst (loop pre []))) as [out [| e s |]];
      cbn in *; congruence.
  - now apply how_looping.
  - destruct (loop_live_app pre rest [] Hpre) as [E1 _].
    destruct (loop_data rest (fst (loop pre []))) as (data & E2 & _).
    cbn [run]. rewrite E1.
    destruct (loop pre []) as [out0 e0]; cbn [fst snd] in *. subst e0.
    destruct (loop rest out0) as [out [| e s |]]; cbn [fst emitted] in *;
      subst out; rewrite <- ?app_assoc; eexists; reflexivity.
  - rewrite how_looping.
    destruct (loop_live_app pre rest [] Hpre) as [E1 _]. rewrite E1.
    apply loop_turning.
Qed.

Lemma run_ends_at_first_stop_or_failure_witness :
  let pre := [Line (str " a "); NothingWaiting] in
  let rest := [Line (str "b"); ReadlineRaises (str "gone") true] in
  run (str "COM3") Opened (pre ++ StopRequested :: rest)
  = run (str "COM3") Opened (pre ++ [StopRequested]) /\
  how (run (str "COM3") Opened pre) = Looping /\
  emitted (run (str "COM3") Opened (pre ++ rest))
  = emitted (run (str "COM3") Opened pre)
    ++ [DataReceived (str "b"); ErrorOccurred (str "gone")].
Proof.
  split; [|split; [|reflexivity]].
  - apply (proj1 (@run_ends_at_first_stop_or_failure (str "COM3")
                    [Line (str " a "); NothingWaiting]
                    [Line (str "b"); ReadlineRaises (str "gone") true]
                    eq_refl)).
    reflexivity.
  - apply (proj1 (proj2 (@run_ends_at_first_stop_or_failure (str "COM3")
                    [Line (str " a "); NothingWaiting]
                    [Line (str "b"); ReadlineRaises (str "gone") true]
                    eq_refl))).
Defined.

Lemma deliver_app xs ys (st : window) :
  deliver (xs ++ ys) st = deliver ys (deliver xs st).
Proof. revert st. induction xs as [|x xs IH]; intros st; cbn; auto. Qed.

Lemma deliver_data data (st : window) :
  deliver (map DataReceived data) st = process_lines data st.
Proof. revert st. induction data as [|l data IH]; intros st; cbn; auto. Qed.

Lemma process_lines_reachable lines (st : window) :
  reachable st -> reachable (process_lines lines st).
Proof.
  revert st. induction lines as [|l lines IH]; intros st R; cbn; auto.
  apply IH. now constructor.
Qed.

Lemma process_lines_core lines (st : window) :
  let st' := process_lines lines st in
  worker st' = worker st /\ combo_ports st' = combo_ports st /\
  btn_refresh st' = btn_refresh st /\ btn_connect st' = btn_connect st /\
  workers st' = workers st.
Proof.
  revert st. induction lines as [|l lines IH]; intros st; [now repeat split|].
  cbn [process_lines]. cbv zeta in *.
  destruct (IH (exec (process_data l) st)) as (A & B & C & D & E).
  destruct (process_data_core l st) as (A' & B' & C' & D' & E').
  repeat split; congruence.
Qed.

(** X15: the signals of a run, handled by the slots of a connected window.
    After a failed run the lines sent are in the log, in their order, then
    the error and the disconnection; the button is unchecked, [self.worker]
    is [None], the port selector and the refresh button are enabled, and
    the cards show what the lines alone leave.  After a stopped run only
    the lines were handled. *)
Theorem failed_run_disconnects_the_window :
  forall (st : window) (port : text) (o : opening) (ticks : list tick),
    reachable st -> btn_checked (btn_connect st) = true ->
    let r := run port o ticks in
    let st' := deliver (emitted r) st in
    (how r = Failed ->
     exists data e,
       emitted r = map DataReceived data ++ [ErrorOccurred e] /\
       btn_checked (btn_connect st') = false /\ worker st' = None /\
       combo_enabled (combo_ports st') = true /\
       btn_enabled (btn_refresh st') = true /\
       log_view st'
       = log_view st ++ data ++ [str "ERRO: " ++ e; str "Desconectado."] /\
       display st' = display (process_lines data st)) /\
    (how r = Stopped ->
     exists data,
       emitted r = map DataReceived data /\ st' = process_lines data st /\
       btn_connect st' = btn_connect st /\ worker st' = worker st).
Proof.
  intros st port o ticks R Hc r st'. subst r st'.
  assert (Fail : forall data e,
    let st' := deliver (map DataReceived data ++ [ErrorOccurred e]) st in
    btn_checked (btn_connect st') = false /\ worker st' = None /\
    combo_enabled (combo_ports st') = true /\
    btn_enabled (btn_refresh st') = true /\
    log_view st'
    = log_view st ++ data ++ [str "ERRO: " ++ e; str "Desconectado."] /\
    display st' = display (process_lines data st)).
  { intros data e. cbv zeta. rewrite deliver_app, deliver_data.
    cbn [deliver deliver_one].
    set (st1 := process_lines data st).
    assert (R1 : reachable st1) by now apply process_lines_reachable.
    destruct (process_lines_core data st) as (A & B & C & D & E).
    fold st1 in A, B, C, D, E.
    assert (L1 : log_view st1 = log_view st ++ data).
    { subst st1. clear. revert st.
      induction data as [|l data IH]; intros st; cbn [process_lines].
      - now rewrite app_nil_r.
      - now rewrite IH, log_process_data, <- app_assoc. }
    pose proof (reachable_wf R1) as W1.
    assert (Hc1 : btn_checked (btn_connect st1) = true) by now rewrite D.
    destruct (wf_on W1 Hc1) as [w Hw].
    unfold handle_error. rewrite exec_bind.
    set (st2 := snd (log_message (str "ERRO: " ++ e) st1)).
    assert (W2 : wf st2) by now apply (wf_log (str "ERRO: " ++ e)).
    rewrite (@click_disconnects st2 w W2 Hc1 Hw).
    subst st2. cbn. rewrite L1, <- !app_assoc. now repeat split. }
  split.
  - intros Hf. destruct o as [|e]; cbn [run] in *.
    + destruct (loop_data ticks []) as (data & E & _). cbn [app] in E.
      destruct (loop ticks []) as [out [| e still |]]; cbn [fst how emitted] in *;
        try discriminate.
      subst out. exists data, e. split; [reflexivity|]. apply Fail.
    + exists [], e. split; [reflexivity|]. apply (Fail [] e).
  - intros Hs. destruct o as [|e]; cbn [run] in *; [|discriminate].
    destruct (loop_data ticks []) as (data & E & _). cbn [app] in E.
    destruct (loop ticks []) as [out [| e still |]]; cbn [fst how emitted] in *;
      try discriminate.
    subst out. exists data. rewrite deliver_data.
    destruct (process_lines_core data st) as (A & _ & _ & D & _).
    now repeat split.
Qed.

Lemma failed_run_disconnects_the_window_witness :
  let st := exec click (init [str "COM3"]) in
  let r := run (str "COM3") Opened
               [Line (str " T: 85.0 C | H: 20.0 % | Peso: 150 | Aquecedor: ON ");
                ReadlineRaises (str "device gone") true] in
  let st' := deliver (emitted r) st in
  how r = Failed /\
  exists data e,
    emitted r = map DataReceived data ++ [ErrorOccurred e] /\
    btn_checked (btn_connect st') = false /\ worker st' = None /\
    combo_enabled (combo_ports st') = true /\
    btn_enabled (btn_refresh st') = true /\
    log_view st'
    = log_view st ++ data ++ [str "ERRO: " ++ e; str "Desconectado."] /\
    display st' = display (process_lines data st).
Proof.
  split; [reflexivity|].
  apply (proj1 (@failed_run_disconnects_the_window
                  (exec click (init [str "COM3"])) (str "COM3") Opened
                  [Line (str " T: 85.0 C | H: 20.0 % | Peso: 150 | Aquecedor: ON ");
                   ReadlineRaises (str "device gone") true]
                  (reach_click (reach_init [str "COM3"])) eq_refl)).
  reflexivity.
Defined.

(** How the loop is left: only by a stop request or by an exception, at
    the first tick that is one. *)
Lemma loop_left_by ticks out :
  match snd (loop ticks out) with
  | Turning => True
  | LoopLeft =>
      exists pre rest,
        ticks = pre ++ StopRequested :: rest /\
        forallb (fun tk => negb (ends_loop tk)) pre = true
  | Raised e still =>
      exists pre tk rest,
        ticks = pre ++ tk :: rest /\
        forallb (fun tk => negb (ends_loop tk)) pre = true /\
        exception_of tk = Some e
  end.
Proof.
  revert out. induction ticks as [|tk ticks IH]; intros out; [exact I|].
  assert (Step : forall out',
    negb (ends_loop tk) = true ->
    match snd (loop ticks out') with
    | Turning => True
    | LoopLeft =>
        exists pre rest,
          tk :: ticks = pre ++ StopRequested :: rest /\
          forallb (fun tk => negb (ends_loop tk)) pre = true
    | Raised e still =>
        exists pre tk0 rest,
          tk :: ticks = pre ++ tk0 :: rest /\
          forallb (fun tk => negb (ends_loop tk)) pre = true /\
          exception_of tk0 = Some e
    end).
  { intros out' Htk. specialize (IH out').
    destruct (snd (loop ticks out')) as [| e still |]; [| |exact I].
    - destruct IH as (pre & rest & -> & L). exists (tk :: pre), rest.
      split; [reflexivity|]. cbn [forallb]. now rewrite Htk.
    - destruct IH as (pre & tk0 & rest & -> & L & X).
      exists (tk :: pre), tk0, rest.
      split; [reflexivity|]. cbn [forallb]. now rewrite Htk. }
  destruct tk as [| e o | | e o | decoded]; cbn [loop snd].
  - now exists [], ticks.
  - now exists [], (InWaitingRaises e o), ticks.
  - now apply Step.
  - now exists [], (ReadlineRaises e o), ticks.
  - destruct (strip decoded); now apply Step.
Qed.

(** C5: a run that meets an exception, when it opens the port or at the
    test or the read of a turn of the loop, before any stop request, ends
    in a failure and emits exactly one error notification, with the text of
    that exception, as its last signal after the lines of the turns before;
    a run fails in no other way, a run that is stopped emits no error, and
    no run emits more than one.  When [run] returns, by either way, the
    port is not open, and is a closed port whenever it had been opened. *)
Theorem one_error_and_port_closed :
  forall (port : text) (o : opening) (ticks : list tick),
    let r := run port o ticks in
    (forall e, o = OpenRaises e ->
       how r = Failed /\ errors r = 1 /\
       emitted r = [ErrorOccurred e] /\ serial_port r = None) /\
    (forall pre tk rest e,
       o = Opened -> ticks = pre ++ tk :: rest ->
       forallb (fun x => negb (ends_loop x)) pre = true ->
       exception_of tk = Some e ->
       how r = Failed /\ errors r = 1 /\
       emitted r = emitted (run port Opened pre) ++ [ErrorOccurred e] /\
       errors (run port Opened pre) = 0 /\
       serial_port r = Some false) /\
    (forall pre rest,
       o = Opened -> ticks = pre ++ StopRequested :: rest ->
       forallb (fun x => negb (ends_loop x)) pre = true ->
       how r = Stopped /\ errors r = 0 /\
       emitted r = emitted (run port Opened pre) /\
       serial_port r = Some false) /\
    (how r = Failed ->
     (exists e, o = OpenRaises e) \/
     (exists pre tk rest e,
        o = Opened /\ ticks = pre ++ tk :: rest /\
        forallb (fun x => negb (ends_loop x)) pre = true /\
        exception_of tk = Some e)) /\
    (how r = Failed ->
     errors r = 1 /\ exists e sent, emitted r = sent ++ [ErrorOccurred e]) /\
    (how r = Stopped -> errors r = 0) /\
    errors r <= 1 /\
    (how r <> Looping ->
     serial_port r <> Some true /\
     (o = Opened -> serial_port r = Some false)).
Proof.
  intros port o ticks r. subst r.
  assert (Live : forall pre,
    forallb (fun x => negb (ends_loop x)) pre = true ->
    emitted (run port Opened pre) = fst (loop pre []) /\
    errors (run port Opened pre) = 0).
  { intros pre Hpre. destruct (loop_live_app pre [] [] Hpre) as [_ T].
    pose proof (loop_errors pre []) as L. unfold errors. cbn [run].
    destruct (loop pre []) as [out e0]; cbn [fst snd] in *. subst e0.
    cbn [emitted]. split; [reflexivity|]. now rewrite L. }
  split; [|split; [|split; [|split]]].
  - intros e ->. now repeat split.
  - intros pre tk rest e -> -> Hpre Hx.
    destruct (Live pre Hpre) as [Ep Zp].
    destruct (loop_live_app pre (tk :: rest) [] Hpre) as [E _].
    unfold errors in *. rewrite Ep in *. cbn [run]. rewrite E.
    destruct tk as [| e' s | | e' s | decoded]; try discriminate;
      injection Hx as ->; cbn [loop how emitted serial_port finally];
      (split; [reflexivity|]);
      (split; [rewrite filter_app, length_app, Zp; reflexivity|]);
      (split; [reflexivity|]);
      (split; [exact Zp | now destruct s]).
  - intros pre rest -> -> Hpre.
    destruct (Live pre Hpre) as [Ep Zp].
    destruct (loop_live_app pre (StopRequested :: rest) [] Hpre) as [E _].
    unfold errors in *. rewrite Ep in *. cbn [run]. rewrite E.
    cbn [loop how emitted serial_port finally]. now repeat split.
  - intros Hf. destruct o as [|e]; [right | left; now exists e].
    pose proof (loop_left_by ticks []) as L. cbn [run] in Hf.
    destruct (loop ticks []) as [out [| e still |]]; cbn [snd how] in *;
      try discriminate.
    destruct L as (pre & tk & rest & E & Hpre & Hx).
    now exists pre, tk, rest, e.
  - unfold errors. destruct o as [|e].
    + cbn [run]. pose proof (loop_errors ticks []) as L.
      destruct (loop ticks []) as [out [| e still |]]; cbn [fst] in L;
        cbn [how emitted serial_port]; rewrite ?filter_app, ?L; cbn;
        (split; [|split; [|split]]); try discriminate; auto.
      * intros _. split; [discriminate | reflexivity].
      * intros _. split; [reflexivity | now exists e, out].
      * intros _. destruct still; split; discriminate || reflexivity.
      * intros Hx. now contradiction Hx.
    + cbn. (split; [|split; [|split]]); try discriminate; auto.
      * intros _. split; [reflexivity | now exists e, []].
      * intros _. split; discriminate.
Qed.

Lemma one_error_and_port_closed_witness :
  let at_open := run (str "COM3") (OpenRaises (str "no such port")) [] in
  let at_test := run (str "COM3") Opened
                     [Line (str " T: 1 C "); NothingWaiting;
                      InWaitingRaises (str "device gone") true;
                      Line (str "late")] in
  let at_read := run (str "COM3") Opened
                     [Line (str " T: 1 C ");
                      ReadlineRaises (str "read failed") false;
                      StopRequested] in
  (how at_open = Failed /\ errors at_open = 1 /\
   emitted at_open = [ErrorOccurred (str "no such port")] /\
   serial_port at_open = None) /\
  (how at_test = Failed /\ errors at_test = 1 /\
   emitted at_test
   = emitted (run (str "COM3") Opened [Line (str " T: 1 C "); NothingWaiting])
     ++ [ErrorOccurred (str "device gone")] /\
   errors (run (str "COM3") Opened [Line (str " T: 1 C "); NothingWaiting]) = 0 /\
   serial_port at_test = Some false) /\
  (how at_read = Failed /\ errors at_read = 1 /\
   emitted at_read
   = emitted (run (str "COM3") Opened [Line (str " T: 1 C ")])
     ++ [ErrorOccurred (str "read failed")] /\
   errors (run (str "COM3") Opened [Line (str " T: 1 C ")]) = 0 /\
   serial_port at_read = Some false).
Proof.
  split; [|split].
  - apply (proj1 (one_error_and_port_closed (str "COM3")
                    (OpenRaises (str "no such port")) [])).
    reflexivity.
  - apply (proj1 (proj2 (one_error_and_port_closed (str "COM3") Opened
                    [Line (str " T: 1 C "); NothingWaiting;
                     InWaitingRaises (str "device gone") true;
                     Line (str "late")]))
             [Line (str " T: 1 C "); NothingWaiting]
             (InWaitingRaises (str "device gone") true)
             [Line (str "late")] (str "device gone"));
      reflexivity.
  - apply (proj1 (proj2 (one_error_and_port_closed (str "COM3") Opened
                    [Line (str " T: 1 C ");
                     ReadlineRaises (str "read failed") false;
                     StopRequested]))
             [Line (str " T: 1 C ")]
             (ReadlineRaises (str "read failed") false)
             [StopRequested] (str "read failed"));
      reflexivity.
Defined.

End WorkerSignals.

(** ** White space around a line *)

Section Padding.

Implicit Types (s x u post rest : text) (m : groups).

Lemma match_here_shape s m :
  match_here regex_pattern s = Some m ->
  exists sp t h w a post,
    s = spaced_line sp t h w a ++ post /\ blanks sp /\
    num_token t /\ num_token h /\ signed_token w /\ heater_token a /\
    m = four_groups t h w a.
Proof.
  intros H. apply match_here_sound in H. destruct H as (mid & post & -> & M).
  apply matches_pattern_shape in M.
  destruct M as (sp & t & h & w & a & -> & B & -> & R).
  exists sp, t, h, w, a, post. rewrite app_nil_r. tauto.
Qed.

Lemma match_here_spaced sp (t h w a : text) post :
  blanks sp ->
  num_token t -> num_token h -> signed_token w -> heater_token a ->
  match_here regex_pattern (spaced_line sp t h w a ++ post)
  = Some (four_groups t h w a).
Proof.
  intros. unfold match_here. rewrite match_spaced_line_from by assumption.
  now rewrite app_nil_r.
Qed.

(** A text that ends in a character that is no white space, and begins a
    text with white space at its end, stops before that white space. *)
Lemma prefix_before_blank u0 c rest x post :
  (u0 ++ [c]) ++ rest = x ++ post -> blank post -> is_space c = false ->
  exists rest', x = (u0 ++ [c]) ++ rest'.
Proof.
  revert x. induction u0 as [|d u0 IH]; intros x E B C.
  - destruct x as [|c' x].
    + cbn in E. subst post. inversion B; congruence.
    + cbn in E. injection E as -> _. now exists x.
  - destruct x as [|d' x].
    + cbn in E. subst post. exfalso. unfold blank in B.
      rewrite Forall_forall in B.
      assert (Hin : In c (d :: (u0 ++ [c]) ++ rest))
        by (right; apply in_or_app; left; apply in_or_app; right; now left).
      apply B in Hin. congruence.
    + cbn in E. injection E as -> E.
      destruct (IH x E B C) as [rest' ->]. now exists rest'.
Qed.

Lemma spaced_line_last sp (t h w a : text) :
  heater_token a ->
  exists u0 c, spaced_line sp t h w a = u0 ++ [c] /\ is_space c = false.
Proof.
  intros [-> | ->]; unfold spaced_line; rewrite !app_assoc.
  - match goal with
    | |- exists u0 c, ?body ++ str "ON" = _ /\ _ =>
        exists (body ++ ["O"%char]), "N"%char;
        split; [exact (app_assoc body ["O"%char] ["N"%char]) | reflexivity]
    end.
  - match goal with
    | |- exists u0 c, ?body ++ str "OFF" = _ /\ _ =>
        exists (body ++ ["O"%char; "F"%char]), "F"%char;
        split; [exact (app_assoc body ["O"%char; "F"%char] ["F"%char])
               | reflexivity]
    end.
Qed.

Lemma match_here_blank_tail x post :
  blank post ->
  match_here regex_pattern (x ++ post) = match_here regex_pattern x.
Proof.
  intros B. destruct (match_here regex_pattern x) as [m|] eqn:E.
  - destruct (match_here_shape _ E)
      as (sp & t & h & w & a & rest & -> & Bs & Ht & Hh & Hw & Ha & ->).
    rewrite <- app_assoc. now apply match_here_spaced.
  - destruct (match_here regex_pattern (x ++ post)) as [m|] eqn:E';
      [|reflexivity].
    destruct (match_here_shape _ E')
      as (sp & t & h & w & a & rest & Es & Bs & Ht & Hh & Hw & Ha & ->).
    destruct (spaced_line_last sp t h w Ha) as (u0 & c & El & C).
    rewrite El in Es. symmetry in Es.
    destruct (prefix_before_blank _ _ _ _ Es B C) as [rest' ->].
    rewrite <- El in E. rewrite match_here_spaced in E by assumption.
    discriminate.
Qed.

Lemma blank_no_T post :
  blank post -> Forall (fun c => Ascii.eqb "T" c = false) post.
Proof.
  apply Forall_impl. intros c Hc. now apply class_not_chr with is_space.
Qed.

Lemma search_blank_tail x post :
  blank post -> search regex_pattern (x ++ post) = search regex_pattern x.
Proof.
  intros B. induction x as [|c x IH].
  - cbn [app]. rewrite search_no_T by now apply blank_no_T. reflexivity.
  - cbn [app search].
    change (c :: x ++ post) with ((c :: x) ++ post).
    rewrite match_here_blank_tail by assumption. now rewrite IH.
Qed.

Lemma search_blank_head pre s :
  blank pre -> search regex_pattern (pre ++ s) = search regex_pattern s.
Proof. intros B. apply search_skip. now apply blank_no_T. Qed.

(** X16: white space before and after a line plays no part in what is
    found in it; so the stripping the worker does before it sends a line
    changes neither the groups nor what [process_data] shows. *)
Theorem padding_does_not_change_the_reading :
  forall (pre line post decoded : text) (st : window),
    blank pre -> blank post ->
    search regex_pattern (pre ++ line ++ post) = search regex_pattern line /\
    display (exec (process_data (pre ++ line ++ post)) st)
    = display (exec (process_data line) st) /\
    search regex_pattern (Worker.strip decoded) = search regex_pattern decoded /\
    display (exec (process_data (Worker.strip decoded)) st)
    = display (exec (process_data decoded) st).
Proof.
  intros pre line post decoded st B1 B2.
  assert (S : forall a b c, blank a -> blank c ->
              search regex_pattern (a ++ b ++ c) = search regex_pattern b)
    by (intros a b c Ba Bc;
        now rewrite search_blank_head, search_blank_tail).
  assert (D : forall l1 l2,
              search regex_pattern l1 = search regex_pattern l2 ->
              display (exec (process_data l1) st)
              = display (exec (process_data l2) st)).
  { intros l1 l2 E. destruct (search regex_pattern l2) as [m|] eqn:E2.
    - destruct (search_groups _ E2) as (t & h & w & a & -> & _).
      now rewrite (display_matched _ st E), (display_matched _ st E2).
    - now rewrite !display_unmatched. }
  assert (T : search regex_pattern (Worker.strip decoded)
              = search regex_pattern decoded).
  { destruct (strip_split decoded) as (a & c & E & Ba & Bc & _).
    rewrite E at 2. symmetry. now apply S. }
  repeat split; auto.
Qed.

Lemma padding_does_not_change_the_reading_witness :
  search regex_pattern (str "  " ++ example_line ++ str " ")
  = search regex_pattern example_line /\
  display (exec (process_data (str "  " ++ example_line ++ str " ")) (init []))
  = display (exec (process_data example_line) (init [])) /\
  search regex_pattern (Worker.strip (str " x "))
  = search regex_pattern (str " x ") /\
  display (exec (process_data (Worker.strip (str " x "))) (init []))
  = display (exec (process_data (str " x ")) (init [])).
Proof.
  apply (@padding_does_not_change_the_reading (str "  ") example_line (str " ")
           (str " x ") (init [])); repeat constructor.
Defined.

End Padding.
